(** * Document picker: subscription propagation and sync state

    A shallow embedding of the [DocumentPicker] component (the toggle handler
    [subscribeDocument], the recursive helper [getDocumentsInFolder] and the
    [reSync] handler) together with the [Knowledge] record that carries the
    state of a sync job.

    React state is modelled by an explicit [Store]; the calls a handler makes
    ([setDocuments], [fetch], [toast.error], ...) are recorded, in program
    order, as a list of [Effect]s which [run] replays on a store. *)

From Stdlib Require Import List String Ascii Bool Arith Lia DecimalString.
Import ListNotations.
Local Open Scope string_scope.
Local Open Scope list_scope.

(** ** Data model *)

(** The [Document] type of [@/models/document], with the fields the picker
    reads.  [parentId] is absent for root-level items and [storageKey] is
    absent until the content has been ingested. *)
Record Document : Type := mkDocument {
  id : string;
  parentId : option string;
  title : string;
  canHaveChildren : bool;
  isSubscribed : bool;
  storageKey : option string
}.

(** [{ ...doc, isSubscribed: b }] *)
Definition withSubscribed (doc : Document) (b : bool) : Document :=
  {| id := id doc;
     parentId := parentId doc;
     title := title doc;
     canHaveChildren := canHaveChildren doc;
     isSubscribed := b;
     storageKey := storageKey doc |}.

(** [doc.parentId === folderId] *)
Definition hasParent (folderId : string) (doc : Document) : bool :=
  match parentId doc with
  | Some p => String.eqb p folderId
  | None => false
  end.

(** ** getDocumentsInFolder *)

(** The body of the [for (const child of children)] loop: every child is
    pushed, followed by the result of the recursive call when the child is a
    folder.  [recur] stands for the recursive call; it yields [None] when that
    call does not return. *)
Fixpoint collect (recur : string -> option (list Document))
    (children : list Document) : option (list Document) :=
  match children with
  | [] => Some []
  | child :: rest =>
      match (if canHaveChildren child then recur (id child) else Some []) with
      | None => None
      | Some inside =>
          match collect recur rest with
          | None => None
          | Some others => Some (child :: inside ++ others)
          end
      end
  end.

(** The recursion of the source is not structural: it follows [parentId]
    links through the flat list.  [fuel] bounds the depth of the call stack;
    [None] means the call did not return within that depth. *)
Fixpoint getDocumentsInFolder (fuel : nat) (documents : list Document)
    (folderId : string) : option (list Document) :=
  match fuel with
  | O => None
  | S fuel' =>
      let children := filter (hasParent folderId) documents in
      collect (getDocumentsInFolder fuel' documents) children
  end.

(** ** The toggle *)

(** [documentsToUpdate.includes(doc.id)] *)
Definition includes (ids : list string) (x : string) : bool :=
  existsb (String.eqb x) ids.

(** [const documentsToUpdate = document.canHaveChildren ? [...] : [document.id]] *)
Definition documentsToUpdate (fuel : nat) (documents : list Document)
    (document : Document) : option (list string) :=
  if canHaveChildren document then
    match getDocumentsInFolder fuel documents (id document) with
    | Some inside => Some (id document :: map id inside)
    | None => None
    end
  else Some [id document].

(** [const newSubscriptionState = !document.isSubscribed] *)
Definition newSubscriptionState (document : Document) : bool :=
  negb (isSubscribed document).

(** [documents.map((doc) => includes(doc.id) ? {...doc, isSubscribed} : doc)] *)
Definition newDocuments (ids : list string) (state : bool)
    (documents : list Document) : list Document :=
  map (fun doc => if includes ids (id doc) then withSubscribed doc state else doc)
      documents.

(** ** Effects of the handlers *)

(** The body of the PATCH request, before [JSON.stringify]. *)
Record Payload : Type := mkPayload {
  documentIds : list string;
  payloadIsSubscribed : bool
}.

(** The request handed to [fetch].  Its headers (the content type and the
    authentication headers) play no part below and are left out. *)
Record Request : Type := mkRequest {
  url : string;
  method : string;
  body : Payload
}.

(** How the awaited [fetch] settles: a response with its [ok] flag, or a
    rejection carrying the error (as it prints). *)
Inductive FetchResult : Type :=
| Responded (ok : bool)
| Rejected (error : string).

Inductive Effect : Type :=
| SetIsSubscribing (b : bool)
| SetDocuments (docs : list Document)
| Fetch (req : Request)
| ToastError (message : string)
| HandleStartSync (connectionId : string).

(** [integration.connection?.id] inside a template string. *)
Definition showConnectionId (connectionId : option string) : string :=
  match connectionId with
  | Some c => c
  | None => "undefined"
  end.

Definition subscribeUrl (connectionId : option string) : string :=
  "/api/integrations/" ++ showConnectionId connectionId ++ "/documents/subscribe".

(** What [subscribeDocument] keeps across the [await]. *)
Record Pending : Type := mkPending {
  currentDocuments : list Document
}.

(** [subscribeDocument] up to and including the call of [fetch]: this part
    runs synchronously when the handler is invoked. *)
Definition subscribeDocument_issue (fuel : nat) (connectionId : option string)
    (documents : list Document) (document : Document)
    : option (list Effect * Pending) :=
  let snapshot := documents in
  match documentsToUpdate fuel documents document with
  | None => None
  | Some ids =>
      let state := newSubscriptionState document in
      let payload := {| documentIds := ids; payloadIsSubscribed := state |} in
      Some ([ SetIsSubscribing true;
              SetDocuments (newDocuments ids state documents);
              Fetch {| url := subscribeUrl connectionId;
                       method := "PATCH";
                       body := payload |} ],
            {| currentDocuments := snapshot |})
  end.

(** [subscribeDocument] after the [await]: the [if (!response.ok)] branch, the
    [catch] block and the [finally] block. *)
Definition subscribeDocument_settle (pending : Pending) (result : FetchResult)
    : list Effect :=
  match result with
  | Responded true => [ SetIsSubscribing false ]
  | Responded false =>
      [ SetDocuments (currentDocuments pending); SetIsSubscribing false ]
  | Rejected error =>
      [ SetDocuments (currentDocuments pending);
        ToastError ("Failed to update subscription: " ++ error);
        SetIsSubscribing false ]
  end.

(** One complete toggle, given how its request settles. *)
Definition subscribeDocument (fuel : nat) (connectionId : option string)
    (documents : list Document) (document : Document) (result : FetchResult)
    : option (list Effect) :=
  match subscribeDocument_issue fuel connectionId documents document with
  | None => None
  | Some (issued, pending) =>
      Some (issued ++ subscribeDocument_settle pending result)
  end.

(** [if (integration.connection?.id)]: defined and not the empty string. *)
Definition truthy (connectionId : option string) : bool :=
  match connectionId with
  | Some c => negb (String.eqb c "")
  | None => false
  end.

Definition reSync (connectionId : option string) : list Effect :=
  SetDocuments [] ::
  (if truthy connectionId then [ HandleStartSync (showConnectionId connectionId) ]
   else []).

(** ** The store the effects act on *)

Record Store : Type := mkStore {
  documents : list Document;
  isSubscribing : bool;
  toasts : list string;
  requests : list Request;
  syncStarts : list string
}.

Definition perform (s : Store) (e : Effect) : Store :=
  match e with
  | SetIsSubscribing b =>
      mkStore (documents s) b (toasts s) (requests s) (syncStarts s)
  | SetDocuments docs =>
      mkStore docs (isSubscribing s) (toasts s) (requests s) (syncStarts s)
  | Fetch req =>
      mkStore (documents s) (isSubscribing s) (toasts s) (requests s ++ [req])
              (syncStarts s)
  | ToastError message =>
      mkStore (documents s) (isSubscribing s) (toasts s ++ [message])
              (requests s) (syncStarts s)
  | HandleStartSync c =>
      mkStore (documents s) (isSubscribing s) (toasts s) (requests s)
              (syncStarts s ++ [c])
  end.

Definition run (effects : list Effect) (s : Store) : Store :=
  fold_left perform effects s.

(** The store right after the synchronous part of a toggle issued on the
    documents it shows, with what the handler keeps for later. *)
Definition issueToggle (fuel : nat) (connectionId : option string) (s : Store)
    (document : Document) : option (Store * Pending) :=
  match subscribeDocument_issue fuel connectionId (documents s) document with
  | None => None
  | Some (issued, pending) => Some (run issued s, pending)
  end.

(** The store once the request of that toggle has settled. *)
Definition settleToggle (s : Store) (pending : Pending) (result : FetchResult)
    : Store :=
  run (subscribeDocument_settle pending result) s.

(** A whole toggle with nothing else happening in between. *)
Definition toggle (fuel : nat) (connectionId : option string) (s : Store)
    (document : Document) (result : FetchResult) : option Store :=
  match subscribeDocument fuel connectionId (documents s) document result with
  | None => None
  | Some effects => Some (run effects s)
  end.

(** A store that shows [docs] and has done nothing yet. *)
Definition showing (docs : list Document) : Store :=
  mkStore docs false [] [] [].

(** ** The tree behind the flat list *)

(** [descendant docs f d]: [d] is reached from the folder id [f] by following
    [parentId] links downwards through documents of [docs]. *)
Inductive descendant (docs : list Document) (f : string) : Document -> Prop :=
| descendant_child (d : Document) :
    In d docs -> parentId d = Some f -> descendant docs f d
| descendant_below (c d : Document) :
    descendant docs f c -> In d docs -> parentId d = Some (id c) ->
    descendant docs f d.

(** Ids identify documents. *)
Definition uniqueIds (docs : list Document) : Prop :=
  NoDup (map id docs).

(** A document that is the parent of another one is a folder. *)
Definition parentsAreFolders (docs : list Document) : Prop :=
  forall p c, In p docs -> In c docs -> parentId c = Some (id p) ->
              canHaveChildren p = true.

(** No document is below itself. *)
Definition acyclic (docs : list Document) : Prop :=
  forall d, ~ descendant docs (id d) d.

(** The invariant of the data model: a forest of folders and files. *)
Record forest (docs : list Document) : Prop := mkForest {
  forest_ids : uniqueIds docs;
  forest_parents : parentsAreFolders docs;
  forest_acyclic : acyclic docs
}.

(** [p] is the folder [f] itself or lies on the way up from it. *)
Definition reaches (docs : list Document) (p : Document) (f : string) : Prop :=
  id p = f \/ exists x, descendant docs (id p) x /\ id x = f.

(** The documents a toggle on [n] is meant to reach. *)
Definition affected (docs : list Document) (n d : Document) : Prop :=
  d = n \/ (canHaveChildren n = true /\ descendant docs (id n) d).

(** [n] as the list shows it once its flag has been flipped. *)
Definition flipped (n : Document) : Document :=
  withSubscribed n (newSubscriptionState n).

(** Kinds of effects. *)
Definition isFetch (e : Effect) : bool :=
  match e with Fetch _ => true | _ => false end.

Definition isToast (e : Effect) : bool :=
  match e with ToastError _ => true | _ => false end.

Definition isSetDocuments (e : Effect) : bool :=
  match e with SetDocuments _ => true | _ => false end.

(** Everything of a document but its subscription flag. *)
Definition sameButSubscribed (d d' : Document) : Prop :=
  id d' = id d /\ parentId d' = parentId d /\ title d' = title d /\
  canHaveChildren d' = canHaveChildren d /\ storageKey d' = storageKey d.

(** ** Sync job *)

Module Sync.

Inductive KnowledgeStatus : Type := in_progress | completed | failed.

(** The [Knowledge] interface; [Date]s are instants counted in
    milliseconds, and [isTruncated] carries the schema default [false]. *)
Record Knowledge : Type := mkKnowledge {
  userId : string;
  connectionId : string;
  integrationId : string;
  integrationName : string;
  integrationLogo : option string;
  documents : list Document;
  syncStatus : option KnowledgeStatus;
  syncStartedAt : option nat;
  syncCompletedAt : option nat;
  syncError : option string;
  isTruncated : bool
}.

Definition ingestionCap : nat := 1000.

(** What can happen to the job of one connection. *)
Inductive SyncEvent : Type :=
| StartSync (now : nat)
| Resync (now : nat)
| Listed (batch : list Document) (now : nat)
| ListingFinished (now : nat)
| IngestionFailed (reason : string).

Definition restarted (k : Knowledge) (now : nat) : Knowledge :=
  mkKnowledge (userId k) (connectionId k) (integrationId k)
    (integrationName k) (integrationLogo k) []
    (Some in_progress) (Some now) None None false.

Definition finished (k : Knowledge) (now : nat) (truncated : bool)
    : Knowledge :=
  mkKnowledge (userId k) (connectionId k) (integrationId k)
    (integrationName k) (integrationLogo k) (documents k)
    (Some completed) (syncStartedAt k) (Some now) (syncError k) truncated.

Definition broken (k : Knowledge) (reason : string) : Knowledge :=
  mkKnowledge (userId k) (connectionId k) (integrationId k)
    (integrationName k) (integrationLogo k) (documents k)
    (Some failed) (syncStartedAt k) (syncCompletedAt k) (Some reason)
    (isTruncated k).

Definition received (k : Knowledge) (batch : list Document) : Knowledge :=
  mkKnowledge (userId k) (connectionId k) (integrationId k)
    (integrationName k) (integrationLogo k) (documents k ++ batch)
    (syncStatus k) (syncStartedAt k) (syncCompletedAt k) (syncError k)
    (isTruncated k).

(** Room left under the cap. *)
Definition room (k : Knowledge) : nat :=
  ingestionCap - List.length (documents k).

(** Modelled from the spec: the sync orchestrator, the server-side job that
    lists the remote documents and writes the [Knowledge] record, is not
    among the sources; only the record type and the truncation notice of the
    picker are.  The transitions are those of the state machine of the
    specification: start or resync leads to [in_progress] (resync from any
    state, wiping documents, [syncError] and [isTruncated]); while
    [in_progress], documents arrive; the listing either finishes within the
    cap ([completed]), or is stopped once it exceeds the cap of 1000
    documents ([completed] with [isTruncated]), or an error ends the job
    ([failed] with its reason).  An event that is not enabled in the current
    state changes nothing. *)
Definition step (k : Knowledge) (e : SyncEvent) : Knowledge :=
  match e, syncStatus k with
  | StartSync now, None => restarted k now
  | Resync now, _ => restarted k now
  | Listed batch now, Some in_progress =>
      if Nat.leb (List.length batch) (room k) then received k batch
      else finished (received k (firstn (room k) batch)) now true
  | ListingFinished now, Some in_progress => finished k now false
  | IngestionFailed reason, Some in_progress => broken k reason
  | _, _ => k
  end.

Definition steps (k : Knowledge) (events : list SyncEvent) : Knowledge :=
  fold_left step events k.

Definition isRestart (e : SyncEvent) : bool :=
  match e with StartSync _ | Resync _ => true | _ => false end.

(** A record for a job that has just been started, for examples. *)
Definition freshJob : Knowledge :=
  mkKnowledge "user-1" "conn-1" "drive" "Drive" None []
    (Some in_progress) (Some 0) None None false.

End Sync.

(** ** Sample tree: folder F holding file A and folder G, G holding file B *)

Definition docF : Document := mkDocument "F" None "Reports" true false None.
Definition docA : Document := mkDocument "F/A" (Some "F") "a.txt" false true None.
Definition docG : Document := mkDocument "F/G" (Some "F") "Archive" true false None.
Definition docB : Document := mkDocument "F/G/B" (Some "F/G") "b.txt" false false None.
Definition docR : Document := mkDocument "R" None "readme.md" false false None.

Definition sampleDocs : list Document := [docF; docA; docG; docB; docR].

(** A malformed listing: a folder that names itself as its parent. *)
Definition docL : Document := mkDocument "L" (Some "L") "Loop" true false None.

Definition loopDocs : list Document := [docL; docR].

(** A listing in which a file is named as a parent: F/X is a file under the
    folder F, and F/X/Y hangs under F/X. *)
Definition docX : Document := mkDocument "F/X" (Some "F") "x.txt" false false None.
Definition docY : Document :=
  mkDocument "F/X/Y" (Some "F/X") "y.txt" false false None.

Definition fileParentDocs : list Document := [docF; docX; docY].

(** [getDocumentsInFolder] returns, and what it returns holds each document
    of the subtree of [folderId]. *)
Definition returnsSubtree (docs : list Document) (folderId : string) : Prop :=
  exists result,
    (exists fuel, getDocumentsInFolder fuel docs folderId = Some result) /\
    forall d, descendant docs folderId d -> In d result.

(** ** Checking the invariant on a given list *)

Fixpoint uniqueb (ids : list string) : bool :=
  match ids with
  | [] => true
  | x :: rest => negb (includes rest x) && uniqueb rest
  end.

Definition parentsAreFoldersb (docs : list Document) : bool :=
  forallb (fun c =>
    forallb (fun p => implb (hasParent (id p) c) (canHaveChildren p)) docs)
    docs.

(** Every document ranks above its parent. *)
Definition rankedb (rank : string -> nat) (docs : list Document) : bool :=
  forallb (fun c =>
    match parentId c with
    | Some p => Nat.ltb (rank p) (rank (id c))
    | None => true
    end) docs.

Definition forestb (rank : string -> nat) (docs : list Document) : bool :=
  uniqueb (map id docs) && parentsAreFoldersb docs && rankedb rank docs.

(** ** The properties under scrutiny, as predicates *)

(** How a request can fail to persist. *)
Definition persistenceFailed (result : FetchResult) : bool :=
  match result with
  | Responded ok => negb ok
  | Rejected _ => true
  end.

(** A toggle on [n] flips the flag of exactly the affected documents. *)
Definition flipsExactlyAffected (fuel : nat) (docs : list Document)
    (n : Document) : Prop :=
  forall connectionId s' pending,
    issueToggle fuel connectionId (showing docs) n = Some (s', pending) ->
    forall i d d',
      nth_error docs i = Some d -> nth_error (documents s') i = Some d' ->
      (isSubscribed d' <> isSubscribed d <-> affected docs n d).


(** Every failed persistence raises a toast. *)
Definition failureIsSurfaced (pending : Pending) (result : FetchResult)
    : Prop :=
  persistenceFailed result = true ->
  existsb isToast (subscribeDocument_settle pending result) = true.

(** ** Shared helpers of the other components *)

(** A number inside a template string. *)
Definition showNat (n : nat) : string :=
  NilEmpty.string_of_uint (Nat.to_uint n).

(** The double quote character. *)
Definition quote : ascii := "034"%char.

(** A string or null in a condition: defined and not empty. *)
Definition present (o : option string) : bool :=
  match o with
  | Some v => negb (String.eqb v "")
  | None => false
  end.

(** ** What the picker renders *)

Module View.

Record BreadcrumbItem : Type := mkCrumb {
  crumbId : string;
  crumbTitle : string
}.

(** The state and props the render functions of [DocumentPicker] read: the
    results of [useDocuments] and [useDocumentNavigation] and the props
    [isSyncing] and [syncError]. *)
Record Picker : Type := mkPicker {
  documents : list Document;
  loading : bool;
  isSyncing : bool;
  isTruncated : bool;
  fetchDocumentsError : option string;
  syncError : option string;
  breadcrumbs : list BreadcrumbItem;
  currentFolders : list Document;
  currentFiles : list Document
}.

Inductive Retry : Type := RetryFetchDocuments | RetryReSync.

(** The elements [renderContent] returns, with their props. *)
Inductive Content : Type :=
| LoadingState (message : string)
| ErrorState (title : option string) (message : string) (onRetry : Retry)
| Browser (items : list BreadcrumbItem) (folders files : list Document).

Definition browser (p : Picker) : Content :=
  Browser (breadcrumbs p) (currentFolders p) (currentFiles p).

Definition renderContent (p : Picker) : Content :=
  if Nat.eqb (List.length (documents p)) 0 then
    if loading p && negb (isSyncing p) then
      LoadingState "Loading documents..."
    else if isSyncing p then
      LoadingState "Syncing documents..."
    else if present (fetchDocumentsError p) then
      ErrorState None
        (match fetchDocumentsError p with Some e => e | None => "" end)
        RetryFetchDocuments
    else if present (syncError p) then
      ErrorState (Some "An error occured during the last sync")
        (String quote
           (match syncError p with Some e => e | None => "" end
            ++ String quote ""))
        RetryReSync
    else browser p
  else browser p.

(** The conditional parts of the dialog header. *)
Record Header : Type := mkHeader {
  syncBadge : option string;
  resyncButton : bool;
  truncationNotice : bool
}.

Definition renderHeader (p : Picker) : Header :=
  {| syncBadge :=
       if isSyncing p then
         Some (if Nat.eqb (List.length (documents p)) 0 then "Syncing..."
               else (showNat (List.length (documents p))
                     ++ " Documents Synced")%string)
       else None;
     resyncButton := negb (loading p) && negb (isSyncing p);
     truncationNotice := isTruncated p |}.

End View.

(** ** knowledge/utils.ts *)

Module Utils.

Record IntegrationGroup : Type := mkGroup {
  connectionId : string;
  integrationId : string;
  integrationName : string;
  integrationLogo : string;
  documents : list Document
}.

Definition filterIntegrationGroups (groups : list IntegrationGroup)
    (selectedId : option string) : list IntegrationGroup :=
  if negb (present selectedId) then groups
  else
    filter (fun group =>
              String.eqb (integrationId group)
                (match selectedId with Some v => v | None => "" end))
           groups.

(** *** The file name of a download *)

(** The character class of the pattern, repeated greedily: the longest run
    of characters that are not double quotes. *)
Fixpoint unquotedRun (s : string) : string :=
  match s with
  | EmptyString => EmptyString
  | String c rest =>
      if Ascii.eqb c quote then EmptyString else String c (unquotedRun rest)
  end.

(** The capture group, which needs at least one character. *)
Definition captureAt (s : string) : option string :=
  match unquotedRun s with
  | EmptyString => None
  | name => Some name
  end.

(** A literal prefix of the pattern. *)
Fixpoint dropPrefix (p s : string) : option string :=
  match p with
  | EmptyString => Some s
  | String a p' =>
      match s with
      | String b s' => if Ascii.eqb a b then dropPrefix p' s' else None
      | EmptyString => None
      end
  end.

(** The regular expression of [downloadFileToDisk] tried at the start of
    [s]: the literal [filename=], an optional double quote (first taken, then
    left out), the capture group, and a closing optional double quote, which
    always matches. *)
Definition matchFilenameAt (s : string) : option string :=
  match dropPrefix "filename=" s with
  | None => None
  | Some rest =>
      match rest with
      | String c rest' =>
          if Ascii.eqb c quote then
            match captureAt rest' with
            | Some name => Some name
            | None => captureAt rest
            end
          else captureAt rest
      | EmptyString => captureAt rest
      end
  end.

(** [contentDisposition.match(...)]: the leftmost position that matches;
    the result is group 1. *)
Fixpoint matchFilename (s : string) : option string :=
  match matchFilenameAt s with
  | Some name => Some name
  | None =>
      match s with
      | EmptyString => None
      | String _ rest => matchFilename rest
      end
  end.

Definition filenameOf (contentDisposition : option string) : string :=
  if present contentDisposition then
    match matchFilename
            (match contentDisposition with Some h => h | None => "" end) with
    | Some name => name
    | None => "document"
    end
  else "document".

(** How the calls awaited by [downloadFileToDisk] end: [fetch] rejects, or
    it yields a response with its [ok] flag and [content-disposition]
    header, whose [blob()] is read or rejects. *)
Inductive DownloadResult : Type :=
| FetchRejected
| Response (ok : bool) (contentDisposition : option string) (blobRead : bool).

Inductive DownloadEffect : Type :=
| FetchStream (url : string)
| CreateObjectURL
| AppendLink (download : string)
| ClickLink
| RevokeObjectURL
| RemoveLink
| ToastSuccess (message : string)
| ConsoleError
| ToastFailure (message : string).

Definition streamUrl (docId storageKey : string) : string :=
  "/api/documents/" ++ docId ++ "/stream?storageKey=" ++ storageKey.

Definition downloadFailed : list DownloadEffect :=
  [ConsoleError; ToastFailure "Failed to download document"].

Definition downloadFileToDisk (docId storageKey : string)
    (result : DownloadResult) : list DownloadEffect :=
  FetchStream (streamUrl docId storageKey) ::
  match result with
  | FetchRejected => downloadFailed
  | Response false _ _ => downloadFailed
  | Response true _ false => downloadFailed
  | Response true contentDisposition true =>
      [ CreateObjectURL;
        AppendLink (filenameOf contentDisposition);
        ClickLink;
        RevokeObjectURL;
        RemoveLink;
        ToastSuccess "Document downloaded successfully" ]
  end.

Definition isToastEffect (e : DownloadEffect) : bool :=
  match e with ToastSuccess _ | ToastFailure _ => true | _ => false end.

Definition isClick (e : DownloadEffect) : bool :=
  match e with ClickLink => true | _ => false end.

Definition isSuccessToast (e : DownloadEffect) : bool :=
  match e with ToastSuccess _ => true | _ => false end.

(** No quote in a string. *)
Fixpoint quoteFree (s : string) : bool :=
  match s with
  | EmptyString => true
  | String c rest => negb (Ascii.eqb c quote) && quoteFree rest
  end.

(** No letter f in a string. *)
Fixpoint withoutF (s : string) : bool :=
  match s with
  | EmptyString => true
  | String c rest => negb (Ascii.eqb c "f"%char) && withoutF rest
  end.

End Utils.

(** ** The chat endpoint and the chat page *)

Module Chat.

Record Message : Type := mkMessage {
  role : string;
  content : string
}.

(** A call that may throw; a thrown error is known by its message. *)
Inductive Or (A : Type) : Type :=
| Throws (message : string)
| Returns (a : A).

Arguments Throws {A} message.
Arguments Returns {A} a.

(** [err.message || fallback] and the like. *)
Definition orElse (v fallback : string) : string :=
  if String.eqb v "" then fallback else v.

Definition newline : string := String "010"%char "".

Definition tripleQuote : string := String quote (String quote (String quote "")).

(** The system message, which carries the text of the document. *)
Definition systemMessage (docText : string) : Message :=
  mkMessage "system"
    ("You are a helpful AI with access to a function named create_hubspot_contact."
     ++ newline
     ++ "You also have access to knowledge doc content:" ++ newline
     ++ tripleQuote ++ docText ++ tripleQuote ++ newline
     ++ "If the user wants to create a hubspot contact, call create_hubspot_contact with { name, email }."
     ++ newline
     ++ "Otherwise, answer from the doc context or normal reasoning."
     ++ newline).

Definition isChatRole (m : Message) : bool :=
  String.eqb (role m) "user" || String.eqb (role m) "assistant".

(** [history.filter(...).map(...)] followed by the push of the user
    message. *)
Definition conversation (history : list Message) (userMessage : string)
    : list Message :=
  map (fun m => mkMessage (role m) (content m)) (filter isChatRole history)
  ++ [mkMessage "user" userMessage].

Definition openAIMessages (docText : string) (history : list Message)
    (userMessage : string) : list Message :=
  systemMessage docText :: conversation history userMessage.

(** [doc?.content || default] *)
Definition docTextOf (docContent : option string) : string :=
  match docContent with
  | Some c => orElse c "No doc found in DB"
  | None => "No doc found in DB"
  end.

Record FunctionCall : Type := mkFunctionCall {
  name : string;
  arguments : option string
}.

Record ChoiceMessage : Type := mkChoiceMessage {
  messageContent : option string;
  function_call : option FunctionCall
}.

Record Choice : Type := mkChoice {
  message : option ChoiceMessage
}.

Inductive Reply : Type :=
| Ok (newMessages : list Message)
| ServerError (error : string).

Section Route.

(** JSON values, [JSON.parse] (which may throw) and [JSON.stringify]; which
    values are [null], and the message of the [TypeError] that reading a
    property of [null] throws; and the [create-contact] action of the
    Integration App client, which yields the id of the contact, if any, or
    throws. *)
Variable Json : Type.
Variable parse : string -> option Json.
Variable emptyObject : Json.
Variable stringify : Json -> string.
Variable isNull : Json -> bool.
Variable nullReadMessage : string.
Variable runAction : Json -> Or (option string).

(** The function itself catches whatever the client throws. *)
Definition createHubSpotContact (parsed : Json) : string :=
  match runAction parsed with
  | Returns out =>
      "Success! Created contact in HubSpot with ID: "
      ++ (match out with Some i => orElse i "(none)" | None => "(none)" end)
  | Throws message => "Error creating contact: " ++ message
  end.

Definition textAnswer (choice : Choice) : list Message :=
  [mkMessage "assistant"
     (match message choice with
      | Some m =>
          match messageContent m with
          | Some c => orElse c "[No text returned]"
          | None => "[No text returned]"
          end
      | None => "[No text returned]"
      end)].

(** [argsJson || "{}"] and [JSON.parse] of it, with the fallback of the
    [catch]. *)
Definition argumentsOf (call : FunctionCall) : string :=
  match arguments call with
  | Some a => orElse a "{}"
  | None => "{}"
  end.

Definition parsedArguments (call : FunctionCall) : Json :=
  match parse (argumentsOf call) with
  | Some v => v
  | None => emptyObject
  end.

(** Steps 6 and 7 of the handler.  The arguments [parsed.name] and
    [parsed.email] of the call of [createHubSpotContact] are read in the
    handler, outside the [try] of that function: when the arguments parse to
    [null], reading them throws. *)
Definition answer (choice : Choice) : Or (list Message) :=
  match message choice with
  | Some m =>
      match function_call m with
      | Some call =>
          if String.eqb (name call) "create_hubspot_contact" then
            let parsed := parsedArguments call in
            if isNull parsed then Throws nullReadMessage
            else
              let result := createHubSpotContact parsed in
              Returns
                [ mkMessage "assistant"
                    ("Calling create_hubspot_contact with "
                     ++ stringify parsed);
                  mkMessage "function" result ]
          else Returns (textAnswer choice)
      | None => Returns (textAnswer choice)
      end
  | None => Returns (textAnswer choice)
  end.

(** The handler, given what reading the request body (its destructuring
    included), the database lookup and the completion call yield.  Whatever
    is thrown inside the handler ends in the reply with status 500. *)
Definition POST (body : Or (string * list Message))
    (findOne : Or (option string))
    (completion : list Message -> Or (list Choice)) : Reply :=
  match body with
  | Throws e => ServerError (orElse e "Unknown error")
  | Returns (userMessage, history) =>
      match findOne with
      | Throws e => ServerError (orElse e "Unknown error")
      | Returns docContent =>
          match completion
                  (openAIMessages (docTextOf docContent) history userMessage)
          with
          | Throws e => ServerError (orElse e "Unknown error")
          | Returns [] =>
              Ok [mkMessage "assistant" "No response from AI."]
          | Returns (choice :: _) =>
              match answer choice with
              | Throws e => ServerError (orElse e "Unknown error")
              | Returns newMessages => Ok newMessages
              end
          end
      end
  end.

End Route.

(** For examples: JSON texts stand for their values, the text [null] for
    the value [null], and the client answers with the contact id 42. *)
Definition jsonIsNull (v : string) : bool := String.eqb v "null".

Definition contactCreated (parsed : string) : Or (option string) :=
  Returns (Some "42").

Definition unauthorized (parsed : string) : Or (option string) :=
  Throws "401".

Definition callContact (args : option string) : Choice :=
  mkChoice (Some (mkChoiceMessage None
    (Some (mkFunctionCall "create_hubspot_contact" args)))).

(** *** The page *)

Record ChatState : Type := mkChatState {
  messages : list Message;
  userInput : string;
  error : string;
  loading : bool
}.

Record ChatRequest : Type := mkChatRequest {
  userMessage : string;
  history : list Message
}.

(** How the awaited calls of [handleSend] end: [fetch] or [res.json()]
    throws, the status is not ok, or a body arrives with its [error] and
    [newMessages] fields. *)
Inductive SendResult : Type :=
| SendThrew (message : string)
| NotOk (status : nat)
| Body (bodyError : option string) (newMessages : list Message).

Section Page.

(** [String.prototype.trim] *)
Variable trim : string -> string.

(** [handleSend] up to the call of [fetch]. *)
Definition handleSend_issue (st : ChatState) : ChatState * option ChatRequest :=
  let text := trim (userInput st) in
  if String.eqb text "" then
    (mkChatState (messages st) (userInput st) "" (loading st), None)
  else
    (mkChatState (messages st ++ [mkMessage "user" text]) "" "" true,
     Some (mkChatRequest text (messages st))).

End Page.

Definition failed (st : ChatState) (message : string) : ChatState :=
  mkChatState (messages st) (userInput st) (orElse message "Unknown error")
    false.

(** [handleSend] after the [await]s. *)
Definition handleSend_settle (st : ChatState) (result : SendResult)
    : ChatState :=
  match result with
  | SendThrew message => failed st message
  | NotOk status => failed st ("Server returned " ++ showNat status)
  | Body bodyError newMessages =>
      if present bodyError then
        failed st (match bodyError with Some e => e | None => "" end)
      else
        mkChatState (messages st ++ newMessages) (userInput st) (error st)
          false
  end.

(** What the endpoint sends back, as the page reads it. *)
Definition asSendResult (r : Reply) : SendResult :=
  match r with
  | Ok newMessages => Body None newMessages
  | ServerError e => NotOk 500
  end.

End Chat.

Example sample_folder :
  getDocumentsInFolder 6 sampleDocs "F" = Some [docA; docG; docB].
Proof. reflexivity. Qed.

Example sample_ids :
  documentsToUpdate 6 sampleDocs docF = Some ["F"; "F/A"; "F/G"; "F/G/B"].
Proof. reflexivity. Qed.

(** ** Strings and membership *)

Lemma hasParent_true (f : string) (d : Document) :
  hasParent f d = true <-> parentId d = Some f.
Proof.
  unfold hasParent. destruct (parentId d) as [p|].
  - rewrite String.eqb_eq. split; congruence.
  - split; discriminate.
Qed.

Lemma includes_In (ids : list string) (x : string) :
  includes ids x = true <-> In x ids.
Proof.
  unfold includes. rewrite existsb_exists. split.
  - intros (y & Hy & E). apply String.eqb_eq in E. now subst.
  - intros H. exists x. split; [assumption | apply String.eqb_refl].
Qed.

Lemma children_spec (docs : list Document) (f : string) (d : Document) :
  In d (filter (hasParent f) docs) <-> In d docs /\ parentId d = Some f.
Proof. rewrite filter_In, hasParent_true. tauto. Qed.

Lemma uniqueIds_inj (docs : list Document) :
  uniqueIds docs ->
  forall a b, In a docs -> In b docs -> id a = id b -> a = b.
Proof.
  unfold uniqueIds. induction docs as [|x docs IH]; simpl; intros ND a b Ha Hb E.
  - contradiction.
  - inversion ND as [|? ? Hx ND']; subst.
    destruct Ha as [<-|Ha], Hb as [<-|Hb]; auto.
    + exfalso. apply Hx. rewrite E. now apply in_map.
    + exfalso. apply Hx. rewrite <- E. now apply in_map.
Qed.

(** ** The loop of getDocumentsInFolder *)

Section Collect.

Variable recur : string -> option (list Document).

Lemma collect_In (cs r : list Document) :
  collect recur cs = Some r ->
  forall d, In d r <->
    exists c, In c cs /\
      (d = c \/
       (canHaveChildren c = true /\
        exists inside, recur (id c) = Some inside /\ In d inside)).
Proof.
  revert r. induction cs as [|c cs IH]; simpl; intros r H d.
  - injection H as <-. split; [contradiction | intros (c & [] & _)].
  - destruct (canHaveChildren c) eqn:Ec.
    + destruct (recur (id c)) as [inside|] eqn:Er; [|discriminate].
      destruct (collect recur cs) as [others|] eqn:Eo; [|discriminate].
      injection H as <-. simpl. rewrite in_app_iff, (IH others eq_refl d).
      split.
      * intros [E | [Hin | (c' & Hc' & Hd)]].
        -- exists c. auto.
        -- exists c. split; [auto|]. right. split; [assumption|].
           exists inside. auto.
        -- exists c'. auto.
      * intros (c' & [<- | Hc'] & Hd).
        -- destruct Hd as [E | (_ & inside' & Er' & Hin)]; [auto|].
           rewrite Er in Er'. injection Er' as <-. auto.
        -- right. right. exists c'. auto.
    + destruct (collect recur cs) as [others|] eqn:Eo; [|discriminate].
      injection H as <-. simpl. rewrite (IH others eq_refl d).
      split.
      * intros [E | (c' & Hc' & Hd)].
        -- exists c. auto.
        -- exists c'. auto.
      * intros (c' & [<- | Hc'] & Hd).
        -- destruct Hd as [E | (Ec' & _)]; [auto | congruence].
        -- right. exists c'. auto.
Qed.

Lemma collect_returns (cs : list Document) :
  (forall c, In c cs -> canHaveChildren c = true ->
             exists inside, recur (id c) = Some inside) ->
  exists r, collect recur cs = Some r.
Proof.
  induction cs as [|c cs IH]; simpl; intros H.
  - now exists [].
  - destruct IH as (others & ->); [intros; apply H; auto|].
    destruct (canHaveChildren c) eqn:Ec.
    + destruct (H c (or_introl eq_refl) Ec) as (inside & ->). eauto.
    + eauto.
Qed.

Lemma collect_needs (cs r : list Document) :
  collect recur cs = Some r ->
  forall c, In c cs -> canHaveChildren c = true ->
            exists inside, recur (id c) = Some inside.
Proof.
  revert r. induction cs as [|c cs IH]; simpl; intros r H c' Hc' Ec'.
  - contradiction.
  - destruct (if canHaveChildren c then recur (id c) else Some [])
      as [inside|] eqn:Er; [|discriminate].
    destruct (collect recur cs) as [others|] eqn:Eo; [|discriminate].
    destruct Hc' as [<- | Hc'].
    + rewrite Ec' in Er. eauto.
    + eapply IH; eauto.
Qed.

End Collect.

Lemma collect_mono (recur recur' : string -> option (list Document))
    (cs r : list Document) :
  (forall x v, recur x = Some v -> recur' x = Some v) ->
  collect recur cs = Some r -> collect recur' cs = Some r.
Proof.
  intros Hm. revert r. induction cs as [|c cs IH]; simpl; intros r H.
  - assumption.
  - destruct (canHaveChildren c).
    + destruct (recur (id c)) as [inside|] eqn:Er; [|discriminate].
      rewrite (Hm _ _ Er).
      destruct (collect recur cs) as [others|]; [|discriminate].
      now rewrite (IH others eq_refl).
    + destruct (collect recur cs) as [others|]; [|discriminate].
      now rewrite (IH others eq_refl).
Qed.

(** ** getDocumentsInFolder: fuel, soundness, closure *)

Section Folder.

Variable docs : list Document.

Lemma getDocumentsInFolder_more_fuel (fuel : nat) :
  forall f r, getDocumentsInFolder fuel docs f = Some r ->
              getDocumentsInFolder (S fuel) docs f = Some r.
Proof.
  induction fuel as [|k IH]; intros f r H.
  - discriminate.
  - change (collect (getDocumentsInFolder (S k) docs)
              (filter (hasParent f) docs) = Some r).
    eapply collect_mono; [exact IH | exact H].
Qed.

Lemma getDocumentsInFolder_fuel_le (fuel fuel' : nat) (f : string)
    (r : list Document) :
  fuel <= fuel' ->
  getDocumentsInFolder fuel docs f = Some r ->
  getDocumentsInFolder fuel' docs f = Some r.
Proof.
  induction 1 as [|m _ IH]; intros H; [assumption|].
  apply getDocumentsInFolder_more_fuel. auto.
Qed.

Lemma getDocumentsInFolder_child (fuel : nat) (f : string)
    (r : list Document) (d : Document) :
  getDocumentsInFolder fuel docs f = Some r ->
  In d docs -> parentId d = Some f -> In d r.
Proof.
  destruct fuel as [|k]; [discriminate|]. simpl. intros H Hd Hp.
  apply (collect_In _ _ _ H). exists d. split; [|auto].
  now apply children_spec.
Qed.

Lemma getDocumentsInFolder_sound (fuel : nat) :
  forall f r d, getDocumentsInFolder fuel docs f = Some r ->
                In d r -> descendant docs f d.
Proof.
  induction fuel as [|k IH]; intros f r d H Hd; [discriminate|].
  simpl in H. apply (collect_In _ _ _ H) in Hd.
  destruct Hd as (c & Hc & Hd). apply children_spec in Hc as [Hc Hp].
  assert (Dc : descendant docs f c) by now apply descendant_child.
  destruct Hd as [-> | (_ & inside & Er & Hin)]; [assumption|].
  specialize (IH _ _ _ Er Hin). clear -Dc IH.
  induction IH as [d Hd Hp | c' d _ IHc Hd Hp].
  - eapply descendant_below; eauto.
  - eapply descendant_below; eauto.
Qed.

Lemma getDocumentsInFolder_closed (fuel : nat) :
  forall f r c d, getDocumentsInFolder fuel docs f = Some r ->
                  In c r -> canHaveChildren c = true ->
                  In d docs -> parentId d = Some (id c) -> In d r.
Proof.
  induction fuel as [|k IH]; intros f r c d H Hc Ec Hd Hp; [discriminate|].
  simpl in H. pose proof (collect_In _ _ _ H) as Hr.
  apply Hr in Hc. destruct Hc as (ch & Hch & Hc). apply Hr.
  exists ch. split; [assumption|]. right.
  destruct Hc as [-> | (Ech & inside & Er & Hin)].
  - split; [assumption|].
    destruct (collect_needs _ _ _ H ch Hch Ec) as (inside & Er).
    exists inside. split; [assumption|].
    eapply getDocumentsInFolder_child; eauto.
  - split; [assumption|]. exists inside. split; [assumption|].
    eapply IH; eauto.
Qed.

Lemma descendant_In (f : string) (d : Document) :
  descendant docs f d -> In d docs.
Proof. now destruct 1. Qed.

Lemma getDocumentsInFolder_complete (fuel : nat) (f : string)
    (r : list Document) :
  parentsAreFolders docs ->
  getDocumentsInFolder fuel docs f = Some r ->
  forall d, descendant docs f d -> In d r.
Proof.
  intros PF H d D.
  induction D as [d Hd Hp | c d Dc IHc Hd Hp].
  - eapply getDocumentsInFolder_child; eauto.
  - eapply getDocumentsInFolder_closed; eauto.
    eapply PF; eauto using descendant_In.
Qed.

(** *** Enough fuel on an acyclic list *)

Lemma reaches_down (p c : Document) (f : string) :
  In c docs -> parentId c = Some f ->
  reaches docs p f -> descendant docs (id p) c.
Proof.
  intros Hc Hp [E | (x & Dx & E)].
  - subst f. now apply descendant_child.
  - subst f. eapply descendant_below; eauto.
Qed.

Lemma getDocumentsInFolder_returns_on (fuel : nat) :
  acyclic docs ->
  forall path f,
    NoDup path -> incl path docs ->
    (forall p, In p path -> reaches docs p f) ->
    List.length docs < fuel + List.length path ->
    exists r, getDocumentsInFolder fuel docs f = Some r.
Proof.
  intros AC. induction fuel as [|k IH]; intros path f ND Hincl Hreach Hlen.
  - pose proof (NoDup_incl_length ND Hincl). simpl in Hlen. lia.
  - simpl. apply collect_returns. intros c Hc _.
    apply children_spec in Hc as [Hc Hp].
    apply (IH (c :: path)).
    + constructor; [|assumption]. intros Hin.
      apply (AC c). eapply reaches_down; eauto.
    + intros x [<- | Hx]; auto.
    + intros p [<- | Hin].
      * now left.
      * right. exists c. split; [|reflexivity].
        eapply reaches_down; eauto.
    + simpl. lia.
Qed.

Lemma getDocumentsInFolder_returns (fuel : nat) (f : string) :
  acyclic docs -> List.length docs < fuel ->
  exists r, getDocumentsInFolder fuel docs f = Some r.
Proof.
  intros AC Hlen.
  apply (getDocumentsInFolder_returns_on fuel AC [] f).
  - constructor.
  - intros x [].
  - intros p [].
  - simpl. lia.
Qed.

(** *** No return on a cycle *)

Lemma descendant_first (f : string) (d : Document) :
  descendant docs f d ->
  exists c, In c docs /\ parentId c = Some f /\
            (c = d \/ descendant docs (id c) d).
Proof.
  induction 1 as [d Hd Hp | c0 d _ (c & Hc & Hp' & Hcd) Hd Hp].
  - exists d. auto.
  - exists c. split; [assumption|]. split; [assumption|]. right.
    destruct Hcd as [-> | Dc].
    + now apply descendant_child.
    + eapply descendant_below; eauto.
Qed.

Lemma getDocumentsInFolder_cycle (fuel : nat) :
  parentsAreFolders docs ->
  forall x, descendant docs (id x) x ->
            getDocumentsInFolder fuel docs (id x) = None.
Proof.
  intros PF. induction fuel as [|k IH]; intros x Dx; [reflexivity|].
  destruct (descendant_first _ _ Dx) as (c & Hc & Hp & Hcx).
  assert (Dc : descendant docs (id c) c).
  { destruct Hcx as [-> | D]; [assumption|].
    eapply descendant_below; eauto. }
  assert (Ec : canHaveChildren c = true).
  { destruct (descendant_first _ _ Dc) as (c' & Hc' & Hp'' & _).
    eapply PF; eauto. }
  simpl.
  destruct (collect (getDocumentsInFolder k docs)
              (filter (hasParent (id x)) docs)) as [r|] eqn:E; [|reflexivity].
  destruct (collect_needs _ _ _ E c) as (inside & Er); auto.
  - now apply children_spec.
  - rewrite (IH c Dc) in Er. discriminate.
Qed.

End Folder.

(** ** Establishing the invariant by computation *)

Lemma uniqueb_NoDup (ids : list string) :
  uniqueb ids = true -> NoDup ids.
Proof.
  induction ids as [|x ids IH]; simpl; intros H; constructor.
  - apply andb_prop in H as [H _]. apply negb_true_iff in H.
    intros Hin. apply includes_In in Hin. congruence.
  - apply andb_prop in H as [_ H]. auto.
Qed.

Lemma parentsAreFoldersb_sound (docs : list Document) :
  parentsAreFoldersb docs = true -> parentsAreFolders docs.
Proof.
  unfold parentsAreFoldersb. rewrite forallb_forall. intros H p c Hp Hc E.
  specialize (H c Hc). rewrite forallb_forall in H. specialize (H p Hp).
  apply hasParent_true in E. rewrite E in H. exact H.
Qed.

Lemma ranked_descendant (rank : string -> nat) (docs : list Document) :
  rankedb rank docs = true ->
  forall f d, descendant docs f d -> rank f < rank (id d).
Proof.
  unfold rankedb. rewrite forallb_forall. intros H f d D.
  induction D as [d Hd Hp | c d _ IH Hd Hp];
    specialize (H d Hd); rewrite Hp in H; apply Nat.ltb_lt in H; lia.
Qed.

Lemma rankedb_acyclic (rank : string -> nat) (docs : list Document) :
  rankedb rank docs = true -> acyclic docs.
Proof.
  intros H d D. apply (ranked_descendant rank docs H) in D. lia.
Qed.

Lemma forestb_sound (rank : string -> nat) (docs : list Document) :
  forestb rank docs = true -> forest docs.
Proof.
  unfold forestb. intros H.
  apply andb_prop in H as [H Hr]. apply andb_prop in H as [Hu Hp].
  constructor.
  - now apply uniqueb_NoDup.
  - now apply parentsAreFoldersb_sound.
  - now apply (rankedb_acyclic rank).
Qed.

Lemma sample_forest : forest sampleDocs.
Proof. apply (forestb_sound String.length). reflexivity. Qed.

(** ** The recursive helper on a forest *)

(** C10, as amended.  On a document list whose [parentId] relation is acyclic,
    [getDocumentsInFolder] returns for every folder id (a call stack deeper
    than the list is long is never needed); every document it returns lies
    below that folder, and, the list being one in which only folders have
    children, it returns each document below that folder.  Acyclicity is
    needed: on such a list, if the call returns for every folder id then the
    relation is acyclic. *)
Theorem getDocumentsInFolder_on_forest (docs : list Document) :
  (acyclic docs ->
   forall folderId, exists result,
     (forall fuel, List.length docs < fuel ->
        getDocumentsInFolder fuel docs folderId = Some result) /\
     (forall d, In d result -> descendant docs folderId d) /\
     (parentsAreFolders docs ->
      forall d, descendant docs folderId d -> In d result)) /\
  (parentsAreFolders docs ->
   (forall folderId, exists fuel result,
      getDocumentsInFolder fuel docs folderId = Some result) ->
   acyclic docs).
Proof.
  split.
  - intros AC f.
    destruct (getDocumentsInFolder_returns docs (S (List.length docs)) f AC)
      as (r & Hr); [lia|].
    exists r. split; [|split].
    + intros fuel Hlen.
      apply (getDocumentsInFolder_fuel_le docs (S (List.length docs))); [lia|].
      exact Hr.
    + intros d. eapply getDocumentsInFolder_sound; eauto.
    + intros PF d. eapply getDocumentsInFolder_complete; eauto.
  - intros PF Hret d D.
    destruct (Hret (id d)) as (fuel & r & Hr).
    rewrite (getDocumentsInFolder_cycle docs fuel PF d D) in Hr.
    discriminate.
Qed.

Example loop_never_returns (fuel : nat) :
  getDocumentsInFolder fuel loopDocs "L" = None.
Proof.
  apply (getDocumentsInFolder_cycle loopDocs fuel) with (x := docL).
  - now apply parentsAreFoldersb_sound.
  - apply descendant_child; simpl; auto.
Qed.

Lemma getDocumentsInFolder_on_forest_witness :
  exists result,
    getDocumentsInFolder 6 sampleDocs "F" = Some result /\
    (forall d, In d result <-> descendant sampleDocs "F" d).
Proof.
  destruct (proj1 (getDocumentsInFolder_on_forest sampleDocs)
                  (forest_acyclic _ sample_forest) "F")
    as (result & Hfuel & Hsound & Hcomplete).
  exists result. split; [apply Hfuel; simpl; lia|].
  intros d. split; [apply Hsound|].
  apply Hcomplete. exact (forest_parents _ sample_forest).
Defined.

(** C10, as stated, fails on an acyclic list in which a file has a child:
    the recursion does not descend into the file F/X, so the document F/X/Y
    below it, which lies in the subtree of F, is not returned, with however
    much fuel. *)
Lemma returnsSubtree_counterexample :
  acyclic fileParentDocs /\ ~ returnsSubtree fileParentDocs "F".
Proof.
  split.
  - now apply (rankedb_acyclic String.length).
  - intros (result & (fuel & H) & Hall).
    destruct fuel as [|fuel]; [discriminate|].
    injection H as <-.
    assert (D : descendant fileParentDocs "F" docY).
    { apply (descendant_below fileParentDocs "F" docX docY).
      - apply descendant_child; simpl; auto.
      - simpl. auto.
      - reflexivity. }
    destruct (Hall docY D) as [E | []]. discriminate E.
Qed.

(** ** The optimistic apply *)


Lemma nth_error_newDocuments (ids : list string) (state : bool)
    (docs : list Document) (i : nat) :
  nth_error (newDocuments ids state docs) i =
  option_map
    (fun doc => if includes ids (id doc) then withSubscribed doc state else doc)
    (nth_error docs i).
Proof. unfold newDocuments. apply nth_error_map. Qed.

Lemma issueToggle_inv (fuel : nat) (connectionId : option string) (s s' : Store)
    (n : Document) (pending : Pending) :
  issueToggle fuel connectionId s n = Some (s', pending) ->
  exists ids,
    documentsToUpdate fuel (documents s) n = Some ids /\
    documents s' = newDocuments ids (negb (isSubscribed n)) (documents s) /\
    requests s' =
      requests s ++
      [ {| url := subscribeUrl connectionId; method := "PATCH";
           body := {| documentIds := ids;
                      payloadIsSubscribed := negb (isSubscribed n) |} |} ] /\
    currentDocuments pending = documents s.
Proof.
  unfold issueToggle, subscribeDocument_issue. intros H.
  destruct (documentsToUpdate fuel (documents s) n) as [ids|]; [|discriminate].
  injection H as <- <-. exists ids. repeat split.
Qed.

Lemma documentsToUpdate_returns (fuel : nat) (docs : list Document)
    (n : Document) :
  acyclic docs -> List.length docs < fuel ->
  exists ids, documentsToUpdate fuel docs n = Some ids.
Proof.
  intros AC Hlen. unfold documentsToUpdate.
  destruct (canHaveChildren n); [|eauto].
  destruct (getDocumentsInFolder_returns docs fuel (id n) AC Hlen) as (r & ->).
  eauto.
Qed.

Lemma includes_affected (fuel : nat) (docs : list Document) (n d : Document)
    (ids : list string) :
  forest docs -> In n docs -> In d docs ->
  documentsToUpdate fuel docs n = Some ids ->
  (includes ids (id d) = true <-> affected docs n d).
Proof.
  intros [U PF AC] Hn Hd H. rewrite includes_In.
  unfold documentsToUpdate in H. unfold affected.
  destruct (canHaveChildren n) eqn:En.
  - destruct (getDocumentsInFolder fuel docs (id n)) as [inside|] eqn:Ei;
      [|discriminate].
    injection H as <-. simpl. split.
    + intros [E | Hin].
      * left. symmetry. now apply (uniqueIds_inj docs U).
      * right. split; [reflexivity|].
        apply in_map_iff in Hin as (x & E & Hx).
        pose proof (getDocumentsInFolder_sound docs _ _ _ _ Ei Hx) as Dx.
        assert (x = d) as <-; [|assumption].
        apply (uniqueIds_inj docs U); eauto using descendant_In.
    + intros [-> | (_ & D)]; [now left|]. right. apply in_map.
      eapply getDocumentsInFolder_complete; eauto.
  - injection H as <-. simpl. split.
    + intros [E | []]. left. symmetry. now apply (uniqueIds_inj docs U).
    + intros [-> | (F & _)]; [now left | discriminate].
Qed.

(** C1, as amended.  On a forest, a toggle on a document [n] of the list
    returns, writes [!n.isSubscribed] into exactly the documents that are [n]
    or, when [n] is a folder, below [n], and leaves every other document as it
    was.  The flag of a document therefore changes exactly when the document
    is affected and its flag was equal to that of [n]. *)
Theorem toggle_writes_exactly_affected (fuel : nat)
    (connectionId : option string) (s : Store) (n : Document) :
  forest (documents s) -> In n (documents s) ->
  List.length (documents s) < fuel ->
  exists s' pending,
    issueToggle fuel connectionId s n = Some (s', pending) /\
    forall i d, nth_error (documents s) i = Some d ->
      exists d',
        nth_error (documents s') i = Some d' /\
        (affected (documents s) n d ->
           d' = withSubscribed d (negb (isSubscribed n))) /\
        (~ affected (documents s) n d -> d' = d) /\
        (isSubscribed d' <> isSubscribed d <->
           affected (documents s) n d /\ isSubscribed d = isSubscribed n).
Proof.
  intros F Hn Hlen.
  destruct (documentsToUpdate_returns fuel (documents s) n
              (forest_acyclic _ F) Hlen) as (ids & Hids).
  unfold issueToggle, subscribeDocument_issue. rewrite Hids.
  eexists. eexists. split; [reflexivity|].
  intros i d Hi. simpl.
  rewrite nth_error_newDocuments, Hi. simpl.
  pose proof (includes_affected fuel (documents s) n d ids F Hn
                (nth_error_In _ _ Hi) Hids) as Haff.
  unfold newSubscriptionState.
  destruct (includes ids (id d)) eqn:E.
  - assert (A : affected (documents s) n d) by now apply Haff.
    eexists. split; [reflexivity|]. split; [reflexivity|].
    split; [tauto|]. simpl. split.
    + intros Hneq. split; [assumption|].
      destruct (isSubscribed n), (isSubscribed d); simpl in *; congruence.
    + intros [_ Heq]. rewrite Heq. now destruct (isSubscribed n).
  - assert (A : ~ affected (documents s) n d).
    { intros A. apply Haff in A. discriminate. }
    exists d. split; [reflexivity|]. split; [tauto|]. split; [reflexivity|].
    split; [congruence | tauto].
Qed.

Lemma toggle_writes_exactly_affected_witness :
  exists s' pending,
    issueToggle 6 (Some "conn-1") (showing sampleDocs) docF = Some (s', pending) /\
    forall i d, nth_error sampleDocs i = Some d ->
      exists d',
        nth_error (documents s') i = Some d' /\
        (affected sampleDocs docF d ->
           d' = withSubscribed d (negb (isSubscribed docF))) /\
        (~ affected sampleDocs docF d -> d' = d) /\
        (isSubscribed d' <> isSubscribed d <->
           affected sampleDocs docF d /\ isSubscribed d = isSubscribed docF).
Proof.
  apply (toggle_writes_exactly_affected 6 (Some "conn-1") (showing sampleDocs)
           docF sample_forest).
  - simpl. auto.
  - simpl. lia.
Defined.

(** C1, as stated, fails on the sample tree: toggling the unsubscribed folder
    F reaches the file F/A below it, which was subscribed already and so keeps
    its flag. *)
Lemma flipsExactlyAffected_counterexample :
  forest sampleDocs /\ In docF sampleDocs /\
  ~ flipsExactlyAffected 6 sampleDocs docF.
Proof.
  split; [exact sample_forest|]. split; [simpl; auto|].
  intros H.
  specialize (H None _ _ eq_refl 1 docA docA eq_refl eq_refl).
  destruct H as [_ H]. apply H; [|reflexivity].
  right. split; [reflexivity|]. apply descendant_child; simpl; auto.
Qed.

(** ** Toggling twice *)

Section Relabel.

(** A rewriting of documents that keeps the shape of the tree. *)
Variable g : Document -> Document.
Hypothesis g_id : forall d, id (g d) = id d.
Hypothesis g_parentId : forall d, parentId (g d) = parentId d.
Hypothesis g_canHaveChildren :
  forall d, canHaveChildren (g d) = canHaveChildren d.

Lemma children_map (f : string) (docs : list Document) :
  filter (hasParent f) (map g docs) = map g (filter (hasParent f) docs).
Proof.
  assert (E : forall d, hasParent f (g d) = hasParent f d).
  { intros d. unfold hasParent. now rewrite g_parentId. }
  induction docs as [|d docs IH]; simpl; [reflexivity|].
  rewrite E, IH. now destruct (hasParent f d).
Qed.

Lemma collect_map (recur recur' : string -> option (list Document))
    (cs : list Document) :
  (forall x, recur' x = option_map (map g) (recur x)) ->
  collect recur' (map g cs) = option_map (map g) (collect recur cs).
Proof.
  intros Hr. induction cs as [|c cs IH]; simpl; [reflexivity|].
  rewrite g_canHaveChildren, g_id, IH.
  destruct (canHaveChildren c).
  - rewrite Hr. destruct (recur (id c)) as [inside|]; simpl; [|reflexivity].
    destruct (collect recur cs) as [others|]; simpl; [|reflexivity].
    now rewrite map_app.
  - destruct (collect recur cs) as [others|]; simpl; reflexivity.
Qed.

Lemma getDocumentsInFolder_map (fuel : nat) (docs : list Document) :
  forall f, getDocumentsInFolder fuel (map g docs) f =
            option_map (map g) (getDocumentsInFolder fuel docs f).
Proof.
  induction fuel as [|k IH]; intros f; simpl; [reflexivity|].
  rewrite children_map. now apply collect_map.
Qed.

Lemma documentsToUpdate_map (fuel : nat) (docs : list Document)
    (n : Document) :
  documentsToUpdate fuel (map g docs) (g n) = documentsToUpdate fuel docs n.
Proof.
  unfold documentsToUpdate.
  rewrite g_canHaveChildren, g_id, getDocumentsInFolder_map.
  destruct (canHaveChildren n); [|reflexivity].
  destruct (getDocumentsInFolder fuel docs (id n)) as [inside|]; simpl;
    [|reflexivity].
  rewrite map_map. f_equal. f_equal. apply map_ext. exact g_id.
Qed.

End Relabel.

Lemma documentsToUpdate_after_apply (fuel : nat) (ids : list string)
    (state : bool) (docs : list Document) (n : Document) :
  documentsToUpdate fuel (newDocuments ids state docs) (flipped n) =
  documentsToUpdate fuel docs n.
Proof.
  unfold newDocuments.
  set (g := fun doc =>
              if includes ids (id doc) then withSubscribed doc state else doc).
  assert (g_id : forall d, id (g d) = id d).
  { intros d. unfold g. now destruct (includes ids (id d)). }
  assert (g_p : forall d, parentId (g d) = parentId d).
  { intros d. unfold g. now destruct (includes ids (id d)). }
  assert (g_c : forall d, canHaveChildren (g d) = canHaveChildren d).
  { intros d. unfold g. now destruct (includes ids (id d)). }
  rewrite <- (documentsToUpdate_map g g_id g_p g_c fuel docs n).
  unfold documentsToUpdate. simpl. rewrite g_c, g_id. reflexivity.
Qed.

Lemma newDocuments_twice (ids : list string) (a b : bool)
    (docs : list Document) :
  newDocuments ids b (newDocuments ids a docs) = newDocuments ids b docs.
Proof.
  unfold newDocuments. rewrite map_map. apply map_ext. intros d.
  destruct (includes ids (id d)) eqn:E; simpl; rewrite E; reflexivity.
Qed.

Lemma toggle_ok_inv (fuel : nat) (connectionId : option string) (s s1 : Store)
    (n : Document) :
  toggle fuel connectionId s n (Responded true) = Some s1 ->
  exists ids,
    documentsToUpdate fuel (documents s) n = Some ids /\
    documents s1 = newDocuments ids (negb (isSubscribed n)) (documents s).
Proof.
  unfold toggle, subscribeDocument, subscribeDocument_issue. intros H.
  destruct (documentsToUpdate fuel (documents s) n) as [ids|]; [|discriminate].
  injection H as <-. exists ids. split; reflexivity.
Qed.




(** ** The value a toggle writes *)

(** C5.  A toggle on [n] computes one target value, the negation of the flag
    [n] had when the toggle was issued.  That value is what the request
    carries, and after the optimistic apply it is the flag of every document
    named in [documentsToUpdate], whatever flag the document had before (its
    other fields are kept); [n] itself is always named, and on a forest so is
    every document below a toggled folder. *)
Theorem toggle_target_is_negation (fuel : nat) (connectionId : option string)
    (s s' : Store) (n : Document) (pending : Pending) :
  issueToggle fuel connectionId s n = Some (s', pending) ->
  exists ids,
    documentsToUpdate fuel (documents s) n = Some ids /\
    In (id n) ids /\
    (exists req, requests s' = requests s ++ [req] /\
                 documentIds (body req) = ids /\
                 payloadIsSubscribed (body req) = negb (isSubscribed n)) /\
    (forall i d, nth_error (documents s) i = Some d -> In (id d) ids ->
       exists d',
         nth_error (documents s') i = Some d' /\
         isSubscribed d' = negb (isSubscribed n) /\
         sameButSubscribed d d') /\
    (forest (documents s) -> In n (documents s) ->
     forall d, In d (documents s) -> affected (documents s) n d ->
               In (id d) ids).
Proof.
  intros H. destruct (issueToggle_inv _ _ _ _ _ _ H) as (ids & Hids & Hd & Hr & _).
  exists ids. split; [assumption|]. split.
  { clear -Hids. unfold documentsToUpdate in Hids.
    destruct (canHaveChildren n).
    - destruct (getDocumentsInFolder fuel (documents s) (id n));
        [|discriminate].
      injection Hids as <-. now left.
    - injection Hids as <-. now left. }
  split; [eexists; split; [exact Hr | split; reflexivity]|]. split.
  - intros i d Hi Hin. rewrite Hd, nth_error_newDocuments, Hi. simpl.
    apply includes_In in Hin. rewrite Hin.
    eexists. split; [reflexivity|]. split; [reflexivity|]. repeat split.
  - intros F Hn d Hdin A. apply includes_In.
    now apply (includes_affected fuel (documents s) n d ids).
Qed.

Lemma toggle_target_is_negation_witness :
  exists s' pending ids,
    issueToggle 6 None (showing sampleDocs) docF = Some (s', pending) /\
    documentsToUpdate 6 sampleDocs docF = Some ids /\
    In "F" ids /\
    (exists req, requests s' = [req] /\
                 documentIds (body req) = ids /\
                 payloadIsSubscribed (body req) = true) /\
    (forall i d, nth_error sampleDocs i = Some d -> In (id d) ids ->
       exists d',
         nth_error (documents s') i = Some d' /\
         isSubscribed d' = true /\
         sameButSubscribed d d') /\
    (forest sampleDocs -> In docF sampleDocs ->
     forall d, In d sampleDocs -> affected sampleDocs docF d -> In (id d) ids).
Proof.
  eexists. eexists.
  destruct (toggle_target_is_negation 6 None (showing sampleDocs) _ docF _
              eq_refl) as (ids & H).
  exists ids. split; [reflexivity | exact H].
Defined.

(** ** Rollback *)

Lemma run_app (xs ys : list Effect) (s : Store) :
  run (xs ++ ys) s = run ys (run xs s).
Proof. unfold run. apply fold_left_app. Qed.

Lemma toggle_issue_settle (fuel : nat) (connectionId : option string)
    (s : Store) (n : Document) (result : FetchResult) :
  toggle fuel connectionId s n result =
  match issueToggle fuel connectionId s n with
  | Some (s1, pending) => Some (settleToggle s1 pending result)
  | None => None
  end.
Proof.
  unfold toggle, subscribeDocument, issueToggle, settleToggle.
  destruct (subscribeDocument_issue fuel connectionId (documents s) n)
    as [[issued pending]|]; [|reflexivity].
  now rewrite run_app.
Qed.

Lemma settle_failed_documents (s : Store) (pending : Pending)
    (result : FetchResult) :
  persistenceFailed result = true ->
  documents (settleToggle s pending result) = currentDocuments pending.
Proof. destruct result as [[|]|e]; simpl; intros H; [discriminate| |]; reflexivity. Qed.

(** C2.  When the request of a toggle fails, be it with a response that is
    not ok or with a rejected call, the handler puts back the list it
    captured when the toggle was issued: the store then shows, element for
    element, the documents it showed immediately before the toggle, whatever
    it showed in between. *)
Theorem rollback_restores_snapshot (fuel : nat) (connectionId : option string)
    (s s1 : Store) (n : Document) (pending : Pending) (result : FetchResult) :
  issueToggle fuel connectionId s n = Some (s1, pending) ->
  persistenceFailed result = true ->
  toggle fuel connectionId s n result = Some (settleToggle s1 pending result) /\
  forall between,
    documents (settleToggle between pending result) = documents s.
Proof.
  intros H Hf. split.
  - now rewrite toggle_issue_settle, H.
  - intros between. rewrite settle_failed_documents by assumption.
    now destruct (issueToggle_inv _ _ _ _ _ _ H) as (_ & _ & _ & _ & ->).
Qed.

Lemma rollback_restores_snapshot_witness :
  exists s1 pending,
    issueToggle 6 (Some "conn-1") (showing sampleDocs) docF = Some (s1, pending) /\
    toggle 6 (Some "conn-1") (showing sampleDocs) docF (Rejected "TypeError")
      = Some (settleToggle s1 pending (Rejected "TypeError")) /\
    forall between,
      documents (settleToggle between pending (Rejected "TypeError"))
      = sampleDocs.
Proof.
  eexists. eexists. split; [reflexivity|].
  exact (rollback_restores_snapshot 6 (Some "conn-1") (showing sampleDocs) _
           docF _ (Rejected "TypeError") eq_refl eq_refl).
Defined.

(** C4 does not hold for a response that is not ok: that branch only puts the
    snapshot back and raises no toast, while the [catch] branch next to it
    raises one.  Neither branch issues a second request. *)
Theorem nonok_response_is_silent (s : Store) (pending : Pending) :
  toasts (settleToggle s pending (Responded false)) = toasts s /\
  documents (settleToggle s pending (Responded false))
    = currentDocuments pending /\
  ~ failureIsSurfaced pending (Responded false) /\
  (forall error,
     toasts (settleToggle s pending (Rejected error))
     = toasts s ++ [("Failed to update subscription: " ++ error)%string]) /\
  (forall result, requests (settleToggle s pending result) = requests s).
Proof.
  split; [reflexivity|]. split; [reflexivity|]. split.
  - intros H. specialize (H eq_refl). discriminate.
  - split; [reflexivity|]. intros [[|]|e]; reflexivity.
Qed.

(** ** Order of the optimistic write and the request *)

(** C7.  In the effects of one toggle the request to the persistence endpoint
    comes right after the write of the optimistic list and is the only
    request: nothing before it and nothing after it is a [fetch].  When the
    request goes out the store already shows the optimistic list. *)
Theorem optimistic_write_precedes_request (fuel : nat)
    (connectionId : option string) (docs : list Document) (n : Document)
    (result : FetchResult) (effects : list Effect) :
  subscribeDocument fuel connectionId docs n result = Some effects ->
  exists ids before req after,
    documentsToUpdate fuel docs n = Some ids /\
    effects =
      before ++
      SetDocuments (newDocuments ids (negb (isSubscribed n)) docs) ::
      Fetch req :: after /\
    existsb isFetch before = false /\
    existsb isFetch after = false /\
    forall s,
      documents
        (run (before ++
              [SetDocuments (newDocuments ids (negb (isSubscribed n)) docs)]) s)
      = newDocuments ids (negb (isSubscribed n)) docs.
Proof.
  unfold subscribeDocument, subscribeDocument_issue. intros H.
  destruct (documentsToUpdate fuel docs n) as [ids|]; [|discriminate].
  injection H as <-.
  exists ids, [SetIsSubscribing true]. eexists. eexists.
  split; [reflexivity|]. split; [reflexivity|]. split; [reflexivity|].
  split; [|reflexivity].
  destruct result as [[|]|e]; reflexivity.
Qed.

Lemma optimistic_write_precedes_request_witness :
  exists effects ids before req after,
    subscribeDocument 6 None sampleDocs docF (Responded false) = Some effects /\
    documentsToUpdate 6 sampleDocs docF = Some ids /\
    effects =
      before ++ SetDocuments (newDocuments ids true sampleDocs) ::
      Fetch req :: after /\
    existsb isFetch before = false /\
    existsb isFetch after = false /\
    forall s,
      documents
        (run (before ++ [SetDocuments (newDocuments ids true sampleDocs)]) s)
      = newDocuments ids true sampleDocs.
Proof.
  eexists.
  destruct (optimistic_write_precedes_request 6 None sampleDocs docF
              (Responded false) _ eq_refl)
    as (ids & before & req & after & H).
  exists ids, before, req, after. split; [reflexivity | exact H].
Defined.

(** ** What a toggle leaves alone *)

Lemma sameButSubscribed_refl (d : Document) : sameButSubscribed d d.
Proof. repeat split. Qed.

Lemma frame_refl (docs : list Document) : Forall2 sameButSubscribed docs docs.
Proof.
  induction docs; constructor; auto using sameButSubscribed_refl.
Qed.

Lemma newDocuments_frame (ids : list string) (state : bool)
    (docs : list Document) :
  Forall2 sameButSubscribed docs (newDocuments ids state docs).
Proof.
  induction docs as [|d docs IH]; simpl; constructor; [|exact IH].
  destruct (includes ids (id d)); repeat split.
Qed.

(** C9.  The optimistic apply of a toggle and its settlement, rollback
    included, keep the document list position by position: same length, same
    order, and at every position the same id, parentId, title,
    canHaveChildren and storageKey; only isSubscribed may differ. *)
Theorem toggle_touches_only_isSubscribed (fuel : nat)
    (connectionId : option string) (s s1 : Store) (n : Document)
    (pending : Pending) :
  issueToggle fuel connectionId s n = Some (s1, pending) ->
  Forall2 sameButSubscribed (documents s) (documents s1) /\
  List.length (documents s1) = List.length (documents s) /\
  forall result,
    Forall2 sameButSubscribed (documents s)
      (documents (settleToggle s1 pending result)) /\
    List.length (documents (settleToggle s1 pending result))
      = List.length (documents s).
Proof.
  intros H.
  destruct (issueToggle_inv _ _ _ _ _ _ H) as (ids & _ & Hd & _ & Hp).
  assert (F1 : Forall2 sameButSubscribed (documents s) (documents s1)).
  { rewrite Hd. apply newDocuments_frame. }
  split; [exact F1|]. split; [symmetry; eapply Forall2_length; eauto|].
  intros result.
  assert (F2 : Forall2 sameButSubscribed (documents s)
                 (documents (settleToggle s1 pending result))).
  { destruct result as [[|]|e]; simpl.
    - exact F1.
    - rewrite Hp. apply frame_refl.
    - rewrite Hp. apply frame_refl. }
  split; [exact F2 | symmetry; eapply Forall2_length; eauto].
Qed.

Lemma toggle_touches_only_isSubscribed_witness :
  exists s1 pending,
    issueToggle 6 None (showing sampleDocs) docF = Some (s1, pending) /\
    Forall2 sameButSubscribed sampleDocs (documents s1) /\
    List.length (documents s1) = 5 /\
    forall result,
      Forall2 sameButSubscribed sampleDocs
        (documents (settleToggle s1 pending result)) /\
      List.length (documents (settleToggle s1 pending result)) = 5.
Proof.
  eexists. eexists. split; [reflexivity|].
  exact (toggle_touches_only_isSubscribed 6 None (showing sampleDocs) _ docF _
           eq_refl).
Defined.

(** ** Resync *)

(** C6.  [reSync] first empties the document list of the store, so the store
    shows no documents at once and still shows none when the handler is done;
    when the connection id is present (defined and not empty) the one thing
    it does next is to start a sync for that connection, otherwise it does
    nothing more. *)
Theorem reSync_clears_then_starts (s : Store) (connectionId : option string) :
  (exists rest, reSync connectionId = SetDocuments [] :: rest /\
                existsb isSetDocuments rest = false) /\
  documents (perform s (SetDocuments [])) = [] /\
  documents (run (reSync connectionId) s) = [] /\
  (truthy connectionId = true ->
   exists c, connectionId = Some c /\
             reSync connectionId = [SetDocuments []; HandleStartSync c] /\
             syncStarts (run (reSync connectionId) s) = syncStarts s ++ [c]) /\
  (truthy connectionId = false ->
   reSync connectionId = [SetDocuments []]).
Proof.
  unfold reSync. split.
  { eexists. split; [reflexivity|]. now destruct (truthy connectionId). }
  split; [reflexivity|]. split.
  { now destruct (truthy connectionId). }
  split.
  - intros T. rewrite T. destruct connectionId as [c|]; [|discriminate].
    exists c. repeat split.
  - intros T. now rewrite T.
Qed.

Lemma reSync_clears_then_starts_witness :
  documents (run (reSync (Some "conn-1")) (showing sampleDocs)) = [] /\
  exists c, Some "conn-1" = Some c /\
            reSync (Some "conn-1") = [SetDocuments []; HandleStartSync c] /\
            syncStarts (run (reSync (Some "conn-1")) (showing sampleDocs))
              = [] ++ [c].
Proof.
  destruct (reSync_clears_then_starts (showing sampleDocs) (Some "conn-1"))
    as (_ & _ & Hd & Hs & _).
  split; [exact Hd | exact (Hs eq_refl)].
Defined.

(** ** Truncation of a sync job *)

Module SyncFacts.

Import Sync.

Lemma completed_stays (k : Knowledge) (e : SyncEvent) :
  syncStatus k = Some completed -> isRestart e = false -> step k e = k.
Proof.
  intros Hs He. destruct e; simpl in *; try discriminate; now rewrite Hs.
Qed.

Lemma completed_stays_steps (events : list SyncEvent) :
  forall k, syncStatus k = Some completed ->
            forallb (fun e => negb (isRestart e)) events = true ->
            steps k events = k.
Proof.
  induction events as [|e events IH]; simpl; intros k Hs H; [reflexivity|].
  apply andb_prop in H as [He H]. apply negb_true_iff in He.
  rewrite completed_stays by assumption. now apply IH.
Qed.

(** C8.  A job in progress whose listing exceeds what the cap of 1000
    documents leaves room for is stopped as [completed] with [isTruncated]
    set; it holds 1000 documents, its [syncError] is untouched, and as long
    as the job is not restarted it stays so: it never becomes [failed].
    The two fields are separate: a failure leaves [isTruncated] as it
    was. *)
Theorem truncated_job_completes (k : Knowledge) (batch : list Document)
    (now : nat) (later : list SyncEvent) :
  syncStatus k = Some in_progress ->
  room k < List.length batch ->
  forallb (fun e => negb (isRestart e)) later = true ->
  let k' := steps (step k (Listed batch now)) later in
  syncStatus k' = Some completed /\
  isTruncated k' = true /\
  syncStatus k' <> Some failed /\
  syncError k' = syncError k /\
  (List.length (documents k) <= ingestionCap ->
   List.length (documents k') = ingestionCap) /\
  (forall reason,
     isTruncated (step k (IngestionFailed reason)) = isTruncated k).
Proof.
  intros Hs Hroom Hlater k'.
  assert (E : step k (Listed batch now)
              = finished (received k (firstn (room k) batch)) now true).
  { simpl. rewrite Hs.
    destruct (Nat.leb_spec (List.length batch) (room k)); [lia|reflexivity]. }
  assert (E' : k' = finished (received k (firstn (room k) batch)) now true).
  { unfold k'. rewrite E. now apply completed_stays_steps. }
  rewrite E'. simpl. repeat split.
  - discriminate.
  - intros Hlen. rewrite length_app, length_firstn. unfold room in *. lia.
  - intros reason. now rewrite Hs.
Qed.

Lemma truncated_job_completes_witness :
  let k' := steps (step freshJob (Listed (repeat docR 1001) 7))
                  [IngestionFailed "late"; ListingFinished 9] in
  syncStatus k' = Some completed /\
  isTruncated k' = true /\
  syncStatus k' <> Some failed /\
  syncError k' = None /\
  (List.length (documents freshJob) <= ingestionCap ->
   List.length (documents k') = ingestionCap) /\
  (forall reason,
     isTruncated (step freshJob (IngestionFailed reason)) = false).
Proof.
  apply (truncated_job_completes freshJob (repeat docR 1001) 7
           [IngestionFailed "late"; ListingFinished 9]).
  - reflexivity.
  - rewrite repeat_length. unfold room, ingestionCap. simpl. lia.
  - reflexivity.
Defined.

End SyncFacts.

(** ** Further properties of the toggle *)

(** *** The ids of a request are distinct *)

Section Distinct.

Variable docs : list Document.
Hypothesis ids_unique : uniqueIds docs.
Hypothesis no_cycle : acyclic docs.

Lemma uniqueIds_NoDup : NoDup docs.
Proof. exact (NoDup_map_inv id docs ids_unique). Qed.

Lemma descendant_parent (a : string) (d : Document) :
  descendant docs a d ->
  parentId d = Some a \/
  exists x, descendant docs a x /\ parentId d = Some (id x).
Proof. destruct 1 as [d Hd Hp | c d Dc Hd Hp]; eauto. Qed.

(** Two folders above the same document lie on one line. *)
Lemma descendant_line (a b : string) (d : Document) :
  descendant docs a d -> descendant docs b d ->
  a = b \/
  (exists x, id x = a /\ descendant docs b x) \/
  (exists x, id x = b /\ descendant docs a x).
Proof.
  intros Da. revert b.
  induction Da as [d Hd Hp | c d Dc IH Hd Hp]; intros b Db.
  - destruct (descendant_parent _ _ Db) as [Hp' | (x & Dx & Hp')].
    + left. congruence.
    + right. left. exists x. split; [congruence | assumption].
  - destruct (descendant_parent _ _ Db) as [Hp' | (x & Dx & Hp')].
    + right. right. exists c. split; [congruence | assumption].
    + assert (x = c) as ->.
      { apply (uniqueIds_inj docs ids_unique);
          eauto using descendant_In. congruence. }
      now apply IH.
Qed.

Lemma sibling_not_below (f : string) (c c' : Document) :
  In c' docs -> parentId c = Some f -> parentId c' = Some f ->
  ~ descendant docs (id c') c.
Proof.
  intros Hc' Hp Hp' D. apply (no_cycle c').
  destruct (descendant_parent _ _ D) as [E | (x & Dx & E)].
  - apply descendant_child; [assumption | congruence].
  - apply (descendant_below docs (id c') x c'); [assumption .. | congruence].
Qed.

Lemma siblings_apart (f : string) (c c' d : Document) :
  In c docs -> In c' docs -> parentId c = Some f -> parentId c' = Some f ->
  c <> c' ->
  (d = c \/ descendant docs (id c) d) ->
  (d = c' \/ descendant docs (id c') d) -> False.
Proof.
  intros Hc Hc' Hp Hp' Hne [-> | D] [E | D'].
  - now apply Hne.
  - now apply (sibling_not_below f c c').
  - subst d. now apply (sibling_not_below f c' c).
  - destruct (descendant_line _ _ _ D D') as [E | [(x & E & Dx) | (x & E & Dx)]].
    + apply Hne. now apply (uniqueIds_inj docs ids_unique).
    + assert (x = c) as ->
        by (apply (uniqueIds_inj docs ids_unique); eauto using descendant_In).
      now apply (sibling_not_below f c c').
    + assert (x = c') as ->
        by (apply (uniqueIds_inj docs ids_unique); eauto using descendant_In).
      now apply (sibling_not_below f c' c).
Qed.

Lemma collect_NoDup (recur : string -> option (list Document)) (f : string) :
  (forall x r, recur x = Some r ->
     NoDup r /\ forall d, In d r -> descendant docs x d) ->
  forall cs r,
    NoDup cs ->
    (forall c, In c cs -> In c docs /\ parentId c = Some f) ->
    collect recur cs = Some r -> NoDup r.
Proof.
  intros Hrec. induction cs as [|c cs IH]; intros r ND Hcs H.
  - injection H as <-. constructor.
  - pose proof (collect_In recur _ _ H) as Hr. simpl in H.
    destruct (if canHaveChildren c then recur (id c) else Some [])
      as [inside|] eqn:Ei; [|discriminate].
    destruct (collect recur cs) as [others|] eqn:Eo; [|discriminate].
    injection H as <-.
    inversion ND as [|? ? Hnotin ND']; subst.
    destruct (Hcs c (or_introl eq_refl)) as [Hc Hp].
    assert (Hinside : NoDup inside /\
                      forall d, In d inside -> descendant docs (id c) d).
    { destruct (canHaveChildren c).
      - now apply Hrec.
      - injection Ei as <-. split; [constructor | intros d []]. }
    destruct Hinside as [NDi Hdesc].
    assert (Hothers : forall d, In d others ->
              exists c', In c' cs /\ (d = c' \/ descendant docs (id c') d)).
    { intros d Hd. apply (collect_In recur _ _ Eo) in Hd.
      destruct Hd as (c' & Hc' & [-> | (_ & ins & Er & Hin)]).
      - exists c'. auto.
      - exists c'. split; [assumption|]. right.
        now apply (proj2 (Hrec _ _ Er)). }
    assert (Hapart : forall d, (d = c \/ descendant docs (id c) d) ->
                               ~ In d others).
    { intros d Hd Hin. destruct (Hothers d Hin) as (c' & Hc' & Hd').
      destruct (Hcs c' (or_intror Hc')) as [Hc'd Hp'].
      apply (siblings_apart f c c' d); auto.
      intros ->. contradiction. }
    constructor.
    + rewrite in_app_iff. intros [Hin | Hin].
      * apply (no_cycle c). auto.
      * apply (Hapart c); auto.
    + apply NoDup_app; [assumption | |].
      * apply (IH others); [assumption | | reflexivity].
        intros c' Hc'. apply Hcs. now right.
      * intros d Hd. apply Hapart. auto.
Qed.

Lemma getDocumentsInFolder_NoDup (fuel : nat) :
  forall f r, getDocumentsInFolder fuel docs f = Some r -> NoDup r.
Proof.
  induction fuel as [|k IH]; intros f r H; [discriminate|].
  simpl in H.
  apply (collect_NoDup (getDocumentsInFolder k docs) f)
    with (cs := filter (hasParent f) docs).
  - intros x r' Hr'. split; [eauto|].
    intros d Hd. eapply getDocumentsInFolder_sound; eauto.
  - apply NoDup_filter, uniqueIds_NoDup.
  - intros c Hc. now apply children_spec in Hc.
  - exact H.
Qed.

Lemma NoDup_map_id (l : list Document) :
  NoDup l -> incl l docs -> NoDup (map id l).
Proof.
  induction l as [|a l IH]; simpl; intros ND Hincl; constructor.
  - inversion ND as [|? ? Hnotin _]; subst. intros Hin.
    apply in_map_iff in Hin as (x & E & Hx). apply Hnotin.
    assert (x = a) as <-; [|assumption].
    apply (uniqueIds_inj docs ids_unique); auto.
    + apply Hincl. now right.
    + apply Hincl. now left.
  - inversion ND; subst. apply IH; [assumption|].
    intros x Hx. apply Hincl. now right.
Qed.

End Distinct.

(** X1.  On a list with unique ids and no cycle, the ids a toggle sends are
    pairwise distinct, and for a document of the list there are at most as
    many of them as the list has documents. *)
Theorem request_ids_distinct (fuel : nat) (docs : list Document)
    (n : Document) (ids : list string) :
  uniqueIds docs -> acyclic docs ->
  documentsToUpdate fuel docs n = Some ids ->
  NoDup ids /\ (In n docs -> List.length ids <= List.length docs).
Proof.
  intros U AC H. unfold documentsToUpdate in H.
  destruct (canHaveChildren n).
  - destruct (getDocumentsInFolder fuel docs (id n)) as [inside|] eqn:Ei;
      [|discriminate].
    injection H as <-.
    pose proof (getDocumentsInFolder_NoDup docs U AC fuel _ _ Ei) as ND.
    assert (Hdesc : forall d, In d inside -> descendant docs (id n) d).
    { intros d Hd. eapply getDocumentsInFolder_sound; eauto. }
    assert (Hincl : incl inside docs).
    { intros d Hd. eapply descendant_In; eauto. }
    split.
    + constructor; [|now apply (NoDup_map_id docs U)].
      intros Hin. apply in_map_iff in Hin as (x & E & Hx).
      apply (AC x). rewrite E. auto.
    + intros Hn. simpl. rewrite length_map.
      change (List.length (n :: inside) <= List.length docs).
      apply NoDup_incl_length.
      * constructor; [|assumption]. intros Hin. apply (AC n). auto.
      * intros d [<- | Hd]; auto.
  - injection H as <-. split.
    + constructor; [intros [] | constructor].
    + intros Hn. destruct docs; [contradiction | simpl; lia].
Qed.

Lemma request_ids_distinct_witness :
  NoDup ["F"; "F/A"; "F/G"; "F/G/B"] /\
  (In docF sampleDocs ->
   List.length ["F"; "F/A"; "F/G"; "F/G/B"] <= List.length sampleDocs).
Proof.
  exact (request_ids_distinct 6 sampleDocs docF _
           (forest_ids _ sample_forest) (forest_acyclic _ sample_forest)
           eq_refl).
Defined.

(** X2.  A toggle on a file, or on a folder that no document of the list
    names as its parent, returns as soon as one call is allowed, on any list
    (cyclic ones included), and sends exactly the id of the toggled
    document. *)
Theorem childless_toggle_sends_own_id (fuel : nat) (docs : list Document)
    (n : Document) :
  canHaveChildren n = false \/
    (forall d, In d docs -> parentId d <> Some (id n)) ->
  documentsToUpdate (S fuel) docs n = Some [id n].
Proof.
  intros H. unfold documentsToUpdate.
  destruct (canHaveChildren n) eqn:En; [|reflexivity].
  destruct H as [H | H]; [discriminate|].
  simpl.
  assert (E : filter (hasParent (id n)) docs = []).
  { clear -H. induction docs as [|d docs IH]; simpl; [reflexivity|].
    destruct (hasParent (id n) d) eqn:Ed.
    - apply hasParent_true in Ed. exfalso. apply (H d); simpl; auto.
    - apply IH. intros x Hx. apply H. now right. }
  now rewrite E.
Qed.

Lemma childless_toggle_sends_own_id_witness :
  documentsToUpdate 1 loopDocs docR = Some ["R"].
Proof.
  apply (childless_toggle_sends_own_id 0 loopDocs docR). now left.
Defined.

(** *** Toggles that overlap in time *)

Lemma settle_ok_documents (s : Store) (pending : Pending) :
  documents (settleToggle s pending (Responded true)) = documents s.
Proof. reflexivity. Qed.

Lemma issueToggle_pending (fuel : nat) (connectionId : option string)
    (s s1 : Store) (n : Document) (pending : Pending) :
  issueToggle fuel connectionId s n = Some (s1, pending) ->
  currentDocuments pending = documents s.
Proof.
  intros H. now destruct (issueToggle_inv _ _ _ _ _ _ H) as (_ & _ & _ & _ & ?).
Qed.

(** X3.  A second toggle B issued while a first toggle A is in flight is lost
    when A fails: whichever of the two settles first, once B has been
    persisted and A has been rolled back the store shows the documents from
    before A, so nothing of B is shown although its request was sent and
    succeeded. *)
Theorem late_rollback_discards_later_toggle (fuel : nat)
    (connectionId : option string) (s s1 s2 : Store) (nA nB : Document)
    (pA pB : Pending) (rA : FetchResult) :
  issueToggle fuel connectionId s nA = Some (s1, pA) ->
  issueToggle fuel connectionId s1 nB = Some (s2, pB) ->
  persistenceFailed rA = true ->
  documents (settleToggle (settleToggle s2 pB (Responded true)) pA rA)
    = documents s /\
  documents (settleToggle (settleToggle s2 pA rA) pB (Responded true))
    = documents s /\
  List.length (requests s2) = 2 + List.length (requests s).
Proof.
  intros HA HB Hf.
  pose proof (issueToggle_pending _ _ _ _ _ _ HA) as EA.
  split; [|split].
  - now rewrite settle_failed_documents.
  - now rewrite settle_ok_documents, settle_failed_documents.
  - destruct (issueToggle_inv _ _ _ _ _ _ HA) as (idsA & _ & _ & RA & _).
    destruct (issueToggle_inv _ _ _ _ _ _ HB) as (idsB & _ & _ & RB & _).
    rewrite RB, RA, !length_app. simpl. lia.
Qed.

Lemma late_rollback_discards_later_toggle_witness :
  exists s1 pA s2 pB,
    issueToggle 6 None (showing sampleDocs) docF = Some (s1, pA) /\
    issueToggle 6 None s1 docR = Some (s2, pB) /\
    documents (settleToggle (settleToggle s2 pB (Responded true)) pA
                 (Responded false)) = sampleDocs /\
    documents (settleToggle (settleToggle s2 pA (Responded false)) pB
                 (Responded true)) = sampleDocs /\
    List.length (requests s2) = 2.
Proof.
  do 4 eexists. split; [reflexivity|]. split; [reflexivity|].
  exact (late_rollback_discards_later_toggle 6 None (showing sampleDocs) _ _
           docF docR _ _ (Responded false) eq_refl eq_refl eq_refl).
Defined.

(** X4.  When two overlapping toggles both fail and settle in the order they
    were issued, the store ends up showing the optimistic list of the first
    toggle, the very update whose request failed; settled in the opposite
    order, it shows the documents from before the first toggle. *)
Theorem rollbacks_in_issue_order_resurrect (fuel : nat)
    (connectionId : option string) (s s1 s2 : Store) (nA nB : Document)
    (pA pB : Pending) (rA rB : FetchResult) :
  issueToggle fuel connectionId s nA = Some (s1, pA) ->
  issueToggle fuel connectionId s1 nB = Some (s2, pB) ->
  persistenceFailed rA = true -> persistenceFailed rB = true ->
  documents (settleToggle (settleToggle s2 pA rA) pB rB) = documents s1 /\
  documents (settleToggle (settleToggle s2 pB rB) pA rA) = documents s.
Proof.
  intros HA HB HfA HfB.
  rewrite !settle_failed_documents by assumption.
  split; eapply issueToggle_pending; eauto.
Qed.

Lemma rollbacks_in_issue_order_resurrect_witness :
  exists s1 pA s2 pB,
    issueToggle 6 None (showing sampleDocs) docF = Some (s1, pA) /\
    issueToggle 6 None s1 docR = Some (s2, pB) /\
    documents (settleToggle (settleToggle s2 pA (Responded false)) pB
                 (Rejected "offline")) = documents s1 /\
    documents (settleToggle (settleToggle s2 pB (Rejected "offline")) pA
                 (Responded false)) = sampleDocs.
Proof.
  do 4 eexists. split; [reflexivity|]. split; [reflexivity|].
  exact (rollbacks_in_issue_order_resurrect 6 None (showing sampleDocs) _ _
           docF docR _ _ (Responded false) (Rejected "offline")
           eq_refl eq_refl eq_refl eq_refl).
Defined.

(** X5.  A resync does not cancel a toggle in flight: if the request of the
    toggle fails after [reSync] has emptied the list, the rollback puts the
    documents from before the toggle back into the store; if it succeeds, the
    list stays empty. *)
Theorem rollback_after_reSync_restores_documents (fuel : nat)
    (connectionId : option string) (s s1 : Store) (n : Document)
    (pending : Pending) (result : FetchResult) :
  issueToggle fuel connectionId s n = Some (s1, pending) ->
  documents (run (reSync connectionId) s1) = [] /\
  documents (settleToggle (run (reSync connectionId) s1) pending result)
    = if persistenceFailed result then documents s else [].
Proof.
  intros H.
  assert (E : documents (run (reSync connectionId) s1) = []).
  { unfold reSync. now destruct (truthy connectionId). }
  split; [exact E|].
  destruct (persistenceFailed result) eqn:Ef.
  - rewrite settle_failed_documents by assumption.
    eapply issueToggle_pending; eauto.
  - destruct result as [[|]|e]; try discriminate.
    now rewrite settle_ok_documents.
Qed.

Lemma rollback_after_reSync_restores_documents_witness :
  exists s1 pending,
    issueToggle 6 (Some "conn-1") (showing sampleDocs) docF
      = Some (s1, pending) /\
    documents (run (reSync (Some "conn-1")) s1) = [] /\
    documents (settleToggle (run (reSync (Some "conn-1")) s1) pending
                 (Responded false)) = sampleDocs.
Proof.
  do 2 eexists. split; [reflexivity|].
  exact (rollback_after_reSync_restores_documents 6 (Some "conn-1")
           (showing sampleDocs) _ docF _ (Responded false) eq_refl).
Defined.

Lemma toggle_ok_run (fuel : nat) (connectionId : option string) (s : Store)
    (n : Document) (ids : list string) :
  documentsToUpdate fuel (documents s) n = Some ids ->
  exists s1,
    toggle fuel connectionId s n (Responded true) = Some s1 /\
    documents s1 = newDocuments ids (negb (isSubscribed n)) (documents s).
Proof.
  intros H. unfold toggle, subscribeDocument, subscribeDocument_issue.
  rewrite H. eexists. split; reflexivity.
Qed.

(** X6.  Once a toggle on [n] has gone through, toggling [n] again flips the
    flag of exactly the documents the toggle names, and a third toggle
    brings back the list the first toggle had produced: from the second
    toggle on, toggling is an involution. *)
Theorem toggle_becomes_involution (fuel : nat) (connectionId : option string)
    (s s1 : Store) (n : Document) :
  toggle fuel connectionId s n (Responded true) = Some s1 ->
  exists ids s2 s3,
    documentsToUpdate fuel (documents s) n = Some ids /\
    toggle fuel connectionId s1 (flipped n) (Responded true) = Some s2 /\
    toggle fuel connectionId s2 (flipped (flipped n)) (Responded true)
      = Some s3 /\
    documents s3 = documents s1 /\
    forall i d1, nth_error (documents s1) i = Some d1 ->
      exists d2, nth_error (documents s2) i = Some d2 /\
                 (isSubscribed d2 <> isSubscribed d1 <-> In (id d1) ids).
Proof.
  intros H. destruct (toggle_ok_inv _ _ _ _ _ H) as (ids & Hids & Hdocs).
  assert (H2 : documentsToUpdate fuel (documents s1) (flipped n) = Some ids).
  { rewrite Hdocs, documentsToUpdate_after_apply. exact Hids. }
  destruct (toggle_ok_run fuel connectionId s1 (flipped n) ids H2)
    as (s2 & T2 & D2).
  assert (H3 : documentsToUpdate fuel (documents s2) (flipped (flipped n))
               = Some ids).
  { rewrite D2, documentsToUpdate_after_apply. exact H2. }
  destruct (toggle_ok_run fuel connectionId s2 (flipped (flipped n)) ids H3)
    as (s3 & T3 & D3).
  exists ids, s2, s3.
  split; [exact Hids|]. split; [exact T2|]. split; [exact T3|].
  assert (E2 : isSubscribed (flipped n) = negb (isSubscribed n)) by reflexivity.
  assert (E3 : isSubscribed (flipped (flipped n)) = isSubscribed n).
  { simpl. unfold newSubscriptionState. simpl. unfold newSubscriptionState.
    apply negb_involutive. }
  split.
  - rewrite D3, D2, newDocuments_twice, Hdocs, newDocuments_twice, E3.
    reflexivity.
  - intros i d1 Hi. rewrite D2, E2, negb_involutive, nth_error_newDocuments, Hi.
    simpl. eexists. split; [reflexivity|].
    rewrite Hdocs, nth_error_newDocuments in Hi.
    destruct (nth_error (documents s) i) as [d|]; [|discriminate].
    simpl in Hi. injection Hi as <-.
    destruct (includes ids (id d)) eqn:E; simpl; rewrite E; simpl.
    + split; [intros _; now apply includes_In|].
      intros _. now destruct (isSubscribed n).
    + split; [congruence|]. intros Hin. apply includes_In in Hin. congruence.
Qed.

Lemma toggle_becomes_involution_witness :
  exists s1 ids s2 s3,
    toggle 6 None (showing sampleDocs) docF (Responded true) = Some s1 /\
    documentsToUpdate 6 sampleDocs docF = Some ids /\
    toggle 6 None s1 (flipped docF) (Responded true) = Some s2 /\
    toggle 6 None s2 (flipped (flipped docF)) (Responded true) = Some s3 /\
    documents s3 = documents s1 /\
    forall i d1, nth_error (documents s1) i = Some d1 ->
      exists d2, nth_error (documents s2) i = Some d2 /\
                 (isSubscribed d2 <> isSubscribed d1 <-> In (id d1) ids).
Proof.
  eexists.
  destruct (toggle_becomes_involution 6 None (showing sampleDocs) _ docF
              eq_refl) as (ids & s2 & s3 & H).
  exists ids, s2, s3. split; [reflexivity | exact H].
Defined.

(** X7.  Whatever the outcome of its request, a toggle that returns leaves
    [isSubscribing] false, has sent exactly one request, a PATCH to the
    subscribe endpoint of the connection, has started no sync, and has raised
    at most one toast. *)
Theorem toggle_bookkeeping (fuel : nat) (connectionId : option string)
    (s s' : Store) (n : Document) (result : FetchResult) :
  toggle fuel connectionId s n result = Some s' ->
  isSubscribing s' = false /\
  (exists req, requests s' = requests s ++ [req] /\
               url req = subscribeUrl connectionId /\
               method req = "PATCH") /\
  syncStarts s' = syncStarts s /\
  List.length (toasts s') <= S (List.length (toasts s)).
Proof.
  unfold toggle, subscribeDocument, subscribeDocument_issue. intros H.
  destruct (documentsToUpdate fuel (documents s) n) as [ids|]; [|discriminate].
  injection H as <-.
  destruct result as [[|]|e]; simpl;
    (split; [reflexivity|]; split; [eexists; repeat split|];
     split; [reflexivity|]; rewrite ?length_app; simpl; lia).
Qed.

Lemma toggle_bookkeeping_witness :
  exists s',
    toggle 6 (Some "conn-1") (showing sampleDocs) docF (Rejected "offline")
      = Some s' /\
    isSubscribing s' = false /\
    (exists req, requests s' = [] ++ [req] /\
                 url req = subscribeUrl (Some "conn-1") /\
                 method req = "PATCH") /\
    syncStarts s' = [] /\
    List.length (toasts s') <= 1.
Proof.
  eexists. split; [reflexivity|].
  exact (toggle_bookkeeping 6 (Some "conn-1") (showing sampleDocs) _ docF
           (Rejected "offline") eq_refl).
Defined.

(** ** What the picker shows *)

Module ViewFacts.

Import View.

Lemma no_documents (p : Picker) :
  Nat.eqb (List.length (View.documents p)) 0 = true <-> View.documents p = [].
Proof.
  rewrite Nat.eqb_eq. destruct (View.documents p); simpl; split;
    congruence || discriminate.
Qed.

(** X8.  As soon as the list holds a document the picker shows the browser
    (breadcrumbs and document list), whatever the loading flag, the sync
    flag and the two errors say: neither a spinner nor an error panel ever
    replaces documents that are there. *)
Theorem documents_are_always_shown (p : Picker) :
  View.documents p <> [] -> renderContent p = browser p.
Proof.
  intros H. unfold renderContent.
  destruct (Nat.eqb (List.length (View.documents p)) 0) eqn:E; [|reflexivity].
  apply no_documents in E. contradiction.
Qed.

Lemma documents_are_always_shown_witness :
  renderContent
    (mkPicker sampleDocs true true false (Some "timeout") (Some "quota")
       [] [docF] [docR])
  = Browser [] [docF] [docR].
Proof.
  apply (documents_are_always_shown
           (mkPicker sampleDocs true true false (Some "timeout") (Some "quota")
              [] [docF] [docR])).
  discriminate.
Defined.

(** X9.  The panel for the error of the last sync, whose retry button
    resyncs, is shown exactly when the list is empty, nothing is loading, no
    sync is running, there is no fetch error and there is a sync error.
    Whenever it is shown the header offers the Resync button and no sync
    badge, and the panel shows the error between double quotes. *)
Theorem sync_error_panel (p : Picker) :
  ((exists t m, renderContent p = ErrorState t m RetryReSync) <->
   View.documents p = [] /\ loading p = false /\ isSyncing p = false /\
   present (fetchDocumentsError p) = false /\
   present (syncError p) = true) /\
  (forall t m, renderContent p = ErrorState t m RetryReSync ->
     resyncButton (renderHeader p) = true /\
     syncBadge (renderHeader p) = None /\
     exists e, syncError p = Some e /\
               m = String quote (e ++ String quote "")).
Proof.
  assert (Hshape : forall t m, renderContent p = ErrorState t m RetryReSync ->
            View.documents p = [] /\ loading p = false /\
            isSyncing p = false /\
            present (fetchDocumentsError p) = false /\
            present (syncError p) = true /\
            m = String quote
                  (match syncError p with Some e => e | None => "" end
                   ++ String quote "")).
  { intros t m. unfold renderContent, browser.
    destruct (Nat.eqb (List.length (View.documents p)) 0) eqn:E;
      [|discriminate].
    apply no_documents in E.
    destruct (loading p), (isSyncing p); simpl; try discriminate;
      destruct (present (fetchDocumentsError p)); try discriminate;
      destruct (present (syncError p)); try discriminate;
      intros H; injection H as _ <-; repeat split; assumption. }
  split.
  - split.
    + intros (t & m & H). destruct (Hshape t m H) as (? & ? & ? & ? & ? & _).
      repeat split; assumption.
    + intros (Hd & Hl & Hs & Hf & He). unfold renderContent.
      apply no_documents in Hd. rewrite Hd, Hl, Hs, Hf, He. simpl. eauto.
  - intros t m H. destruct (Hshape t m H) as (_ & Hl & Hs & _ & He & Hm).
    unfold renderHeader. simpl. rewrite Hl, Hs. repeat split.
    destruct (syncError p) as [e|]; [|discriminate]. eauto.
Qed.

Lemma sync_error_panel_witness :
  resyncButton
    (renderHeader (mkPicker [] false false false None (Some "quota") [] [] []))
    = true /\
  syncBadge
    (renderHeader (mkPicker [] false false false None (Some "quota") [] [] []))
    = None /\
  exists e, Some "quota" = Some e /\
            String quote ("quota" ++ String quote "")
            = String quote (e ++ String quote "").
Proof.
  exact (proj2 (sync_error_panel
                  (mkPicker [] false false false None (Some "quota") [] [] []))
               _ _ eq_refl).
Defined.

(** X10.  While a sync is running the picker offers no way to retry: it never
    shows an error panel, whatever errors are recorded, and the header has
    the sync badge and no Resync button.  With an empty list it shows the
    syncing spinner. *)
Theorem no_retry_while_syncing (p : Picker) :
  isSyncing p = true ->
  (forall t m r, renderContent p <> ErrorState t m r) /\
  resyncButton (renderHeader p) = false /\
  syncBadge (renderHeader p) <> None /\
  (View.documents p = [] ->
   renderContent p = LoadingState "Syncing documents..." /\
   syncBadge (renderHeader p) = Some "Syncing...").
Proof.
  intros Hs. unfold renderContent, renderHeader, browser. simpl. rewrite Hs.
  rewrite !andb_false_r. simpl.
  split; [|split; [reflexivity|split; [discriminate|]]].
  - intros t m r.
    destruct (Nat.eqb (List.length (View.documents p)) 0); discriminate.
  - intros Hd. rewrite Hd. split; reflexivity.
Qed.

Lemma no_retry_while_syncing_witness :
  renderContent
    (mkPicker [] false true false (Some "timeout") (Some "quota") [] [] [])
  = LoadingState "Syncing documents...".
Proof.
  apply (no_retry_while_syncing
           (mkPicker [] false true false (Some "timeout") (Some "quota")
              [] [] []) eq_refl).
  reflexivity.
Defined.

End ViewFacts.

(** ** Integration groups and downloads *)

Module UtilsFacts.

Import Utils.

(** X11.  With a selected id that is defined and not empty,
    [filterIntegrationGroups] keeps exactly the groups of that integration,
    in their order; with no selected id, or the empty string, it returns
    the groups untouched, those of every integration included. *)
Theorem filterIntegrationGroups_selects (groups : list IntegrationGroup)
    (selectedId : option string) :
  (forall v, selectedId = Some v -> v <> "" ->
     filterIntegrationGroups groups selectedId
       = filter (fun g => String.eqb (integrationId g) v) groups /\
     forall g, In g (filterIntegrationGroups groups selectedId) <->
               In g groups /\ integrationId g = v) /\
  (selectedId = None \/ selectedId = Some "" ->
   filterIntegrationGroups groups selectedId = groups).
Proof.
  unfold filterIntegrationGroups. split.
  - intros v -> Hv. simpl.
    destruct (String.eqb_spec v ""); [contradiction|]. simpl.
    split; [reflexivity|]. intros g. rewrite filter_In, String.eqb_eq.
    tauto.
  - intros [-> | ->]; reflexivity.
Qed.

Lemma filterIntegrationGroups_selects_witness :
  filterIntegrationGroups
    [mkGroup "c1" "drive" "Drive" "" []; mkGroup "c2" "notion" "Notion" "" []]
    (Some "")
  = [mkGroup "c1" "drive" "Drive" "" []; mkGroup "c2" "notion" "Notion" "" []].
Proof.
  apply (proj2 (filterIntegrationGroups_selects _ (Some ""))). now right.
Defined.

(** X12.  Filtering what has been filtered with the same selection changes
    nothing, and filtering never lengthens the list. *)
Theorem filterIntegrationGroups_idempotent (groups : list IntegrationGroup)
    (selectedId : option string) :
  filterIntegrationGroups (filterIntegrationGroups groups selectedId)
    selectedId
  = filterIntegrationGroups groups selectedId /\
  List.length (filterIntegrationGroups groups selectedId)
    <= List.length groups.
Proof.
  unfold filterIntegrationGroups.
  destruct (present selectedId); simpl.
  - split; [|apply filter_length_le].
    induction groups as [|g groups IH]; simpl; [reflexivity|].
    destruct (String.eqb (integrationId g) _) eqn:E; simpl.
    + rewrite E. now f_equal.
    + exact IH.
  - split; [reflexivity | lia].
Qed.

(** *** File names *)

Lemma unquotedRun_quoteFree (s : string) :
  quoteFree (unquotedRun s) = true.
Proof.
  induction s as [|c s IH]; simpl; [reflexivity|].
  destruct (Ascii.eqb c quote) eqn:E; simpl; [reflexivity|].
  now rewrite E.
Qed.

Lemma captureAt_Some (s name : string) :
  captureAt s = Some name -> name <> "" /\ quoteFree name = true.
Proof.
  unfold captureAt. pose proof (unquotedRun_quoteFree s) as Q.
  destruct (unquotedRun s); [discriminate|].
  intros H. injection H as <-. split; [discriminate | exact Q].
Qed.

Lemma matchFilenameAt_Some (s name : string) :
  matchFilenameAt s = Some name -> name <> "" /\ quoteFree name = true.
Proof.
  unfold matchFilenameAt.
  destruct (dropPrefix "filename=" s) as [rest|]; [|discriminate].
  destruct rest as [|c rest'].
  - apply captureAt_Some.
  - destruct (Ascii.eqb c quote).
    + destruct (captureAt rest') as [n|] eqn:E.
      * intros H. injection H as <-. now apply (captureAt_Some rest').
      * apply captureAt_Some.
    + apply captureAt_Some.
Qed.

Lemma matchFilename_Some (s : string) :
  forall name, matchFilename s = Some name ->
               name <> "" /\ quoteFree name = true.
Proof.
  induction s as [|c s IH]; intros name; simpl.
  - discriminate.
  - destruct (matchFilenameAt (String c s)) eqn:E.
    + intros H. injection H as <-. now apply (matchFilenameAt_Some (String c s)).
    + apply IH.
Qed.

(** X13.  Whatever the [content-disposition] header is, absent, empty or
    arbitrary text, the name given to the downloaded file is never empty and
    never contains a double quote; without a header it is [document]. *)
Theorem filename_is_usable (contentDisposition : option string) :
  filenameOf contentDisposition <> "" /\
  quoteFree (filenameOf contentDisposition) = true /\
  (present contentDisposition = false ->
   filenameOf contentDisposition = "document").
Proof.
  unfold filenameOf. destruct (present contentDisposition).
  - destruct (matchFilename _) as [name|] eqn:E.
    + destruct (matchFilename_Some _ _ E). repeat split; auto. discriminate.
    + repeat split; discriminate.
  - repeat split; discriminate.
Qed.

Lemma filename_is_usable_witness : filenameOf None = "document".
Proof. exact (proj2 (proj2 (filename_is_usable None)) eq_refl). Defined.

Lemma unquotedRun_app (name rest : string) :
  quoteFree name = true ->
  unquotedRun (name ++ String quote rest) = name.
Proof.
  induction name as [|c name IH]; simpl; intros Q; [reflexivity|].
  apply andb_prop in Q as [Qc Q]. apply negb_true_iff in Qc.
  rewrite Qc. now rewrite IH.
Qed.

Lemma unquotedRun_all (name : string) :
  quoteFree name = true -> unquotedRun name = name.
Proof.
  induction name as [|c name IH]; simpl; intros Q; [reflexivity|].
  apply andb_prop in Q as [Qc Q]. apply negb_true_iff in Qc.
  rewrite Qc. now rewrite IH.
Qed.

Lemma matchFilename_skip (p s : string) :
  withoutF p = true -> matchFilename (p ++ s) = matchFilename s.
Proof.
  induction p as [|c p IH]; simpl; intros W; [reflexivity|].
  apply andb_prop in W as [Wc W]. apply negb_true_iff in Wc.
  assert (E : matchFilenameAt (String c (p ++ s)) = None).
  { unfold matchFilenameAt. cbn [dropPrefix].
    now rewrite Ascii.eqb_sym, Wc. }
  change (match matchFilenameAt (String c (p ++ s)) with
          | Some name => Some name
          | None => matchFilename (p ++ s)
          end = matchFilename s).
  rewrite E. now apply IH.
Qed.

Lemma present_app (p s : string) :
  s <> "" -> present (Some (p ++ s)%string) = true.
Proof.
  intros H. simpl. destruct p; simpl; [|reflexivity].
  destruct s; [contradiction | reflexivity].
Qed.

Lemma matchFilename_here (s name : string) :
  matchFilenameAt s = Some name -> matchFilename s = Some name.
Proof.
  intros H. destruct s as [|c s]; [cbv in H; discriminate|].
  cbn [matchFilename]. now rewrite H.
Qed.

Lemma matchFilenameAt_quoted (x : string) :
  matchFilenameAt ("filename=" ++ String quote x) =
  match captureAt x with
  | Some name => Some name
  | None => captureAt (String quote x)
  end.
Proof. reflexivity. Qed.

Lemma matchFilenameAt_unquoted (c : ascii) (x : string) :
  Ascii.eqb c quote = false ->
  matchFilenameAt ("filename=" ++ String c x) = captureAt (String c x).
Proof.
  intros H. unfold matchFilenameAt.
  change (dropPrefix "filename=" ("filename=" ++ String c x))
    with (Some (String c x)).
  cbv beta iota. now rewrite H.
Qed.

Lemma captureAt_app (name rest : string) :
  name <> "" -> quoteFree name = true ->
  captureAt (name ++ String quote rest) = Some name.
Proof.
  intros Hn Q. unfold captureAt. rewrite unquotedRun_app by assumption.
  destruct name; [contradiction | reflexivity].
Qed.

(** X14.  A header that carries the file name between double quotes gives
    that name back: for every name that is not empty and has no double
    quote, after any text without the letter f (such as [attachment; ]) and
    before anything at all, the name is read exactly. *)
Theorem quoted_filename_is_read (before name after : string) :
  withoutF before = true -> name <> "" -> quoteFree name = true ->
  filenameOf
    (Some (before ++ "filename="
           ++ String quote (name ++ String quote after))%string)
  = name.
Proof.
  intros W Hn Q. unfold filenameOf.
  rewrite present_app by discriminate.
  rewrite matchFilename_skip by assumption.
  rewrite (matchFilename_here _ name); [reflexivity|].
  rewrite matchFilenameAt_quoted. now rewrite captureAt_app.
Qed.

Lemma quoted_filename_is_read_witness :
  filenameOf
    (Some ("attachment; " ++ "filename="
           ++ String quote ("report.pdf" ++ String quote "; size=3"))%string)
  = "report.pdf".
Proof.
  apply (quoted_filename_is_read "attachment; " "report.pdf" "; size=3").
  - reflexivity.
  - discriminate.
  - reflexivity.
Defined.

(** X15.  A header that carries the file name without quotes gives back
    everything after [filename=] up to the end of the header, further
    parameters included, as long as no double quote follows. *)
Theorem unquoted_filename_takes_the_rest (before rest : string) :
  withoutF before = true -> rest <> "" -> quoteFree rest = true ->
  filenameOf (Some (before ++ "filename=" ++ rest)%string) = rest.
Proof.
  intros W Hn Q. unfold filenameOf.
  rewrite present_app by discriminate.
  rewrite matchFilename_skip by assumption.
  rewrite (matchFilename_here _ rest); [reflexivity|].
  destruct rest as [|c rest]; [contradiction|].
  pose proof (unquotedRun_all _ Q) as R.
  simpl in Q. apply andb_prop in Q as [Qc Q]. apply negb_true_iff in Qc.
  rewrite matchFilenameAt_unquoted by assumption.
  unfold captureAt. now rewrite R.
Qed.

Lemma unquoted_filename_takes_the_rest_witness :
  filenameOf (Some ("attachment; " ++ "filename=" ++ "a.txt; size=3")%string)
  = "a.txt; size=3".
Proof.
  apply (unquoted_filename_takes_the_rest "attachment; " "a.txt; size=3").
  - reflexivity.
  - discriminate.
  - reflexivity.
Defined.

(** X16.  Every run of [downloadFileToDisk] starts with the request for the
    stream and raises exactly one toast.  The toast is the success toast
    exactly when the response was ok and its blob could be read, and exactly
    then is the link clicked; otherwise nothing is downloaded. *)
Theorem download_raises_one_toast (docId storageKey : string)
    (result : DownloadResult) :
  let effects := downloadFileToDisk docId storageKey result in
  hd_error effects = Some (FetchStream (streamUrl docId storageKey)) /\
  List.length (filter isToastEffect effects) = 1 /\
  (existsb isSuccessToast effects = true <->
   exists h, result = Response true h true) /\
  existsb isClick effects = existsb isSuccessToast effects.
Proof.
  destruct result as [|[|] h [|]]; simpl; repeat split;
    try discriminate; eauto;
    intros (h' & E); discriminate.
Qed.

Lemma download_raises_one_toast_witness :
  existsb isSuccessToast
    (downloadFileToDisk "doc-1" "key-1" (Response true None true)) = true.
Proof.
  apply (proj2 (proj1 (proj2 (proj2
           (download_raises_one_toast "doc-1" "key-1"
              (Response true None true)))))).
  now exists None.
Defined.

End UtilsFacts.

(** ** The chat *)

Module ChatFacts.

Import Chat.

Lemma message_eta (m : Message) : mkMessage (role m) (content m) = m.
Proof. now destruct m. Qed.

Lemma conversation_filter (history : list Message) (text : string) :
  conversation history text
  = filter isChatRole (history ++ [mkMessage "user" text]).
Proof.
  unfold conversation. rewrite filter_app. simpl. f_equal.
  rewrite <- (map_id (filter isChatRole history)) at 2.
  apply map_ext. exact message_eta.
Qed.

Lemma isChatRole_true (m : Message) :
  isChatRole m = true <-> role m = "user" \/ role m = "assistant".
Proof.
  unfold isChatRole. rewrite orb_true_iff, !String.eqb_eq. tauto.
Qed.

(** X17.  The messages handed to the model start with the system message,
    end with the message of the user, and hold in between the user and
    assistant messages of the history, all of them and in order; a message
    with any other role, such as the function messages the page keeps, is
    never sent. *)
Theorem messages_sent_to_model (docText : string) (history : list Message)
    (text : string) :
  openAIMessages docText history text
    = systemMessage docText ::
      filter isChatRole history ++ [mkMessage "user" text] /\
  (forall m, In m (openAIMessages docText history text) ->
     role m <> "function" /\
     (m = systemMessage docText \/ m = mkMessage "user" text \/
      (In m history /\ (role m = "user" \/ role m = "assistant")))) /\
  (forall m, In m history -> role m = "user" \/ role m = "assistant" ->
     In m (openAIMessages docText history text)).
Proof.
  assert (E : openAIMessages docText history text
              = systemMessage docText ::
                filter isChatRole history ++ [mkMessage "user" text]).
  { unfold openAIMessages. rewrite conversation_filter, filter_app.
    reflexivity. }
  split; [exact E|]. rewrite E. split.
  - intros m [<- | Hin]; [split; [discriminate | now left]|].
    apply in_app_iff in Hin as [Hin | [<- | []]].
    + apply filter_In in Hin as [Hh Hr]. apply isChatRole_true in Hr.
      split; [|auto]. destruct Hr as [-> | ->]; discriminate.
    + split; [discriminate | auto].
  - intros m Hm Hr. right. apply in_app_iff. left. apply filter_In.
    split; [assumption | now apply isChatRole_true].
Qed.

Lemma messages_sent_to_model_witness :
  In (mkMessage "user" "hi")
     (openAIMessages "notes"
        [mkMessage "function" "Success!"; mkMessage "user" "hi"] "again").
Proof.
  apply (proj2 (proj2 (messages_sent_to_model "notes"
                         [mkMessage "function" "Success!";
                          mkMessage "user" "hi"] "again"))).
  - simpl. auto.
  - now left.
Defined.

Section RouteFacts.

Variable Json : Type.
Variable parse : string -> option Json.
Variable emptyObject : Json.
Variable stringify : Json -> string.
Variable isNull : Json -> bool.
Variable nullReadMessage : string.
Variable runAction : Json -> Or (option string).

(** The first choice calls [create_hubspot_contact]. *)
Lemma answer_cases (choice : Choice) :
  (exists c,
     answer Json parse emptyObject stringify isNull nullReadMessage runAction
       choice
     = Returns [mkMessage "assistant" c] /\
     forall m call, message choice = Some m -> function_call m = Some call ->
                    name call <> "create_hubspot_contact") \/
  (exists m call,
     message choice = Some m /\ function_call m = Some call /\
     name call = "create_hubspot_contact" /\
     answer Json parse emptyObject stringify isNull nullReadMessage runAction
       choice
     = if isNull (parsedArguments Json parse emptyObject call)
       then Throws nullReadMessage
       else Returns
              [ mkMessage "assistant"
                  ("Calling create_hubspot_contact with "
                   ++ stringify (parsedArguments Json parse emptyObject call))%string;
                mkMessage "function"
                  (createHubSpotContact Json runAction
                     (parsedArguments Json parse emptyObject call)) ]).
Proof.
  unfold answer, textAnswer.
  destruct (message choice) as [m|] eqn:Em.
  - destruct (function_call m) as [call|] eqn:Ec.
    + destruct (String.eqb_spec (name call) "create_hubspot_contact")
        as [En|En].
      * right. exists m, call. repeat split; assumption.
      * left. eexists. split; [reflexivity|].
        intros m' call' Hm Hc. injection Hm as <-. rewrite Ec in Hc.
        now injection Hc as <-.
    + left. eexists. split; [reflexivity|]. intros m' call' Hm Hc.
      injection Hm as <-. congruence.
  - left. eexists. split; [reflexivity|]. discriminate.
Qed.

(** X18.  A reply of the endpoint that is not an error holds one or two
    messages, the first always from the assistant; a second message is
    there only when the model called [create_hubspot_contact] with arguments
    that do not parse to null, and it is the function message with the
    outcome of the action.  A call of any other function is answered as
    plain text. *)
Theorem reply_shape (body : Or (string * list Message))
    (findOne : Or (option string))
    (completion : list Message -> Or (list Choice))
    (newMessages : list Message) :
  POST Json parse emptyObject stringify isNull nullReadMessage runAction
    body findOne completion
    = Ok newMessages ->
  (exists c, newMessages = [mkMessage "assistant" c]) \/
  (exists text history docContent choice rest m call,
     newMessages
       = [ mkMessage "assistant"
             ("Calling create_hubspot_contact with "
              ++ stringify (parsedArguments Json parse emptyObject call))%string;
           mkMessage "function"
             (createHubSpotContact Json runAction
                (parsedArguments Json parse emptyObject call)) ] /\
     body = Returns (text, history) /\ findOne = Returns docContent /\
     completion (openAIMessages (docTextOf docContent) history text)
       = Returns (choice :: rest) /\
     message choice = Some m /\ function_call m = Some call /\
     name call = "create_hubspot_contact" /\
     isNull (parsedArguments Json parse emptyObject call) = false).
Proof.
  unfold POST.
  destruct body as [e|[text history]]; [discriminate|].
  destruct findOne as [e|docContent]; [discriminate|].
  destruct (completion _) as [e|[|choice rest]] eqn:Ec; [discriminate| |].
  - intros H. injection H as <-. left. eexists. reflexivity.
  - destruct (answer_cases choice)
      as [(c & -> & _) | (m & call & Hm & Hc & Hn & ->)].
    + intros H. injection H as <-. left. eexists. reflexivity.
    + destruct (isNull (parsedArguments Json parse emptyObject call)) eqn:En;
        [discriminate|].
      intros H. injection H as <-. right.
      exists text, history, docContent, choice, rest, m, call.
      repeat split; assumption.
Qed.

(** X19.  When reading the body, the database lookup and the completion call
    return, the endpoint answers with a server error in one case only: the
    first choice calls [create_hubspot_contact] and its arguments parse to
    null, so that reading [parsed.name] throws.  Otherwise the reply is not
    an error; in particular a HubSpot action that throws is reported inside
    the function message and does not make the request fail. *)
Theorem server_error_only_on_null_arguments (text : string)
    (history : list Message) (docContent : option string)
    (completion : list Message -> Or (list Choice))
    (choices : list Choice) :
  completion (openAIMessages (docTextOf docContent) history text)
    = Returns choices ->
  ((exists e,
      POST Json parse emptyObject stringify isNull nullReadMessage runAction
        (Returns (text, history)) (Returns docContent) completion
      = ServerError e) <->
   (exists choice rest m call,
      choices = choice :: rest /\
      message choice = Some m /\ function_call m = Some call /\
      name call = "create_hubspot_contact" /\
      isNull (parsedArguments Json parse emptyObject call) = true)) /\
  (forall choice rest m call reason,
     choices = choice :: rest ->
     message choice = Some m -> function_call m = Some call ->
     name call = "create_hubspot_contact" ->
     isNull (parsedArguments Json parse emptyObject call) = false ->
     runAction (parsedArguments Json parse emptyObject call) = Throws reason ->
     POST Json parse emptyObject stringify isNull nullReadMessage runAction
       (Returns (text, history)) (Returns docContent) completion
     = Ok [ mkMessage "assistant"
              ("Calling create_hubspot_contact with "
               ++ stringify (parsedArguments Json parse emptyObject call))%string;
            mkMessage "function"
              ("Error creating contact: " ++ reason)%string ]).
Proof.
  intros H. unfold POST. rewrite H.
  destruct choices as [|choice rest].
  { split.
    - split; [intros (e & E); discriminate|].
      intros (ch & r & m & call & E & _). discriminate.
    - intros ch r m call reason E. discriminate. }
  destruct (answer_cases choice)
    as [(c & -> & Hother) | (m & call & Hm & Hc & Hn & ->)].
  - split.
    + split; [intros (e & E); discriminate|].
      intros (ch & r & m & call & E & Hm & Hc & Hn & _).
      injection E as <- <-. exfalso. eapply Hother; eauto.
    + intros ch r m call reason E Hm Hc Hn _ _.
      injection E as <- <-. exfalso. eapply Hother; eauto.
  - split.
    + split.
      * intros (e & E).
        destruct (isNull (parsedArguments Json parse emptyObject call)) eqn:En;
          [|discriminate].
        exists choice, rest, m, call. repeat split; assumption.
      * intros (ch & r & m' & call' & E & Hm' & Hc' & _ & En).
        injection E as <- <-. rewrite Hm in Hm'. injection Hm' as <-.
        rewrite Hc in Hc'. injection Hc' as <-. rewrite En. eauto.
    + intros ch r m' call' reason E Hm' Hc' _ En Hthrow.
      injection E as <- <-. rewrite Hm in Hm'. injection Hm' as <-.
      rewrite Hc in Hc'. injection Hc' as <-. rewrite En.
      unfold createHubSpotContact. now rewrite Hthrow.
Qed.

End RouteFacts.

Lemma reply_shape_witness :
  (exists c,
     [ mkMessage "assistant" "Calling create_hubspot_contact with {}";
       mkMessage "function"
         "Success! Created contact in HubSpot with ID: 42" ]
     = [mkMessage "assistant" c]) \/
  (exists text history docContent choice rest m call,
     [ mkMessage "assistant" "Calling create_hubspot_contact with {}";
       mkMessage "function"
         "Success! Created contact in HubSpot with ID: 42" ]
     = [ mkMessage "assistant"
           ("Calling create_hubspot_contact with "
            ++ parsedArguments string Some "{}" call)%string;
         mkMessage "function"
           (createHubSpotContact string contactCreated
              (parsedArguments string Some "{}" call)) ] /\
     Returns ("add Ann", ([] : list Message)) = Returns (text, history) /\
     Returns (None : option string) = Returns docContent /\
     Returns [callContact None] = Returns (choice :: rest) /\
     message choice = Some m /\ function_call m = Some call /\
     name call = "create_hubspot_contact" /\
     jsonIsNull (parsedArguments string Some "{}" call) = false).
Proof.
  exact (reply_shape string Some "{}" (fun v => v) jsonIsNull "TypeError"
           contactCreated
           (Returns ("add Ann", [])) (Returns None)
           (fun _ => Returns [callContact None])
           _ eq_refl).
Defined.

Lemma server_error_only_on_null_arguments_witness :
  (exists e,
     POST string Some "{}" (fun v => v) jsonIsNull "TypeError" unauthorized
       (Returns ("add Ann", [])) (Returns None)
       (fun _ => Returns [callContact (Some "null")])
     = ServerError e) /\
  POST string Some "{}" (fun v => v) jsonIsNull "TypeError" unauthorized
    (Returns ("add Ann", [])) (Returns None)
    (fun _ => Returns [callContact None])
  = Ok [ mkMessage "assistant" "Calling create_hubspot_contact with {}";
         mkMessage "function" "Error creating contact: 401" ].
Proof.
  split.
  - apply (proj1 (server_error_only_on_null_arguments string Some "{}"
                    (fun v => v) jsonIsNull "TypeError" unauthorized
                    "add Ann" [] None
                    (fun _ => Returns [callContact (Some "null")])
                    _ eq_refl)).
    exists (callContact (Some "null")), [].
    do 2 eexists. repeat split.
  - exact (proj2 (server_error_only_on_null_arguments string Some "{}"
                    (fun v => v) jsonIsNull "TypeError" unauthorized
                    "add Ann" [] None
                    (fun _ => Returns [callContact None])
                    _ eq_refl)
             (callContact None) [] _ _ "401"
             eq_refl eq_refl eq_refl eq_refl eq_refl eq_refl).
Defined.

Section PageFacts.

Variable trim : string -> string.

(** X20.  When [handleSend] sends a request, the messages the endpoint hands
    to the model for it are the system message followed by exactly the user
    and assistant messages the page shows at that moment, the one just typed
    included once, at the end; a blank input sends nothing and leaves
    messages, input and loading flag alone. *)
Theorem model_sees_the_visible_chat (st : ChatState) (docText : string) :
  (trim (userInput st) = "" ->
   handleSend_issue trim st
     = (mkChatState (messages st) (userInput st) "" (loading st), None)) /\
  (trim (userInput st) <> "" ->
   exists st' req,
     handleSend_issue trim st = (st', Some req) /\
     messages st' = messages st ++ [mkMessage "user" (trim (userInput st))] /\
     loading st' = true /\ userInput st' = "" /\
     openAIMessages docText (history req) (userMessage req)
       = systemMessage docText :: filter isChatRole (messages st')).
Proof.
  unfold handleSend_issue. split.
  - intros ->. reflexivity.
  - intros H. destruct (String.eqb_spec (trim (userInput st)) "");
      [contradiction|].
    do 2 eexists. split; [reflexivity|]. simpl. repeat split.
    unfold openAIMessages. now rewrite conversation_filter.
Qed.

End PageFacts.

Lemma model_sees_the_visible_chat_witness :
  exists st' req,
    handleSend_issue (fun v => v)
      (mkChatState [mkMessage "assistant" "Hello!"] "hi" "" false)
      = (st', Some req) /\
    messages st' = [mkMessage "assistant" "Hello!"] ++ [mkMessage "user" "hi"] /\
    loading st' = true /\ userInput st' = "" /\
    openAIMessages "notes" (history req) (userMessage req)
      = systemMessage "notes" :: filter isChatRole (messages st').
Proof.
  apply (proj2 (model_sees_the_visible_chat (fun v => v)
                  (mkChatState [mkMessage "assistant" "Hello!"] "hi" "" false)
                  "notes")).
  discriminate.
Defined.

(** X21.  The page never shows the error text of the endpoint: a server
    error reaches it as status 500 and is reported as [Server returned 500],
    with the chat left as it was.  A reply with messages appends them and
    keeps the error line.  In both cases the loading flag is cleared and the
    input is not touched. *)
Theorem page_reports_status_only (st : ChatState) (reply : Reply) :
  let st' := handleSend_settle st (asSendResult reply) in
  loading st' = false /\ userInput st' = userInput st /\
  match reply with
  | Ok newMessages =>
      messages st' = messages st ++ newMessages /\ error st' = error st
  | ServerError _ =>
      messages st' = messages st /\ error st' = "Server returned 500"
  end.
Proof. destruct reply; simpl; repeat split. Qed.

(** X22.  Whatever the outcome of a send, the loading flag is cleared and
    the messages the chat showed stay in place.  A send that fails (a thrown
    call, a status that is not ok, a body with an error) adds no message and
    sets an error line that is never empty, so that it is displayed; a send
    that succeeds appends the new messages and leaves the error line as it
    was. *)
Theorem failed_send_shows_an_error (st : ChatState) (result : SendResult) :
  let st' := handleSend_settle st result in
  loading st' = false /\
  match result with
  | Body bodyError newMessages =>
      if present bodyError
      then messages st' = messages st /\ error st' <> ""
      else messages st' = messages st ++ newMessages /\
           error st' = error st
  | _ => messages st' = messages st /\ error st' <> ""
  end.
Proof.
  assert (NE : forall v, orElse v "Unknown error" <> "").
  { intros v. unfold orElse. destruct (String.eqb_spec v ""); [discriminate|].
    assumption. }
  destruct result as [m | status | bodyError msgs]; simpl.
  - repeat split. apply NE.
  - repeat split. apply NE.
  - destruct (present bodyError); simpl; repeat split. apply NE.
Qed.

End ChatFacts.
